(** * brazil_nut: the phase controller of the Brazil-nut cylinder experiment

    A shallow embedding of [src/brazil_cylinder.cpp].  The C++ [double]
    is the kernel's binary64 [float] (IEEE 754, round to nearest even),
    so the comparisons and roundings below are those of the compiled
    program.  The MercuryDPM engine is external: of it we keep the
    handlers the driver touches (walls, boundaries, particles), the clock
    ([getTime], [getTimeStep]) and the bounding box.  Species, gravity
    and output settings never reach the code modelled here and are left
    out. *)

From Stdlib Require Import Floats.
From Stdlib Require Import ZArith QArith Qpower Qfield List Bool Lia.
Import ListNotations.

Set Warnings "-inexact-float,-abstract-large-number".

Local Open Scope float_scope.

(** ** Geometry *)

Module Vec3D.
Record t : Set := mk { X : float; Y : float; Z : float }.
End Vec3D.
Abbreviation Vec3D := Vec3D.t.
Abbreviation vec := Vec3D.mk.

(** [SphericalParticle]: the setters the driver calls. *)
Record SphericalParticle : Set := {
  p_radius : float;
  p_position : Vec3D;
  p_velocity : Vec3D
}.

(** [CubeInsertionBoundary]: the arguments of [set(particle, maxFailed,
    posMin, posMax, velMin, velMax)] and the flow rate
    [setVolumeFlowRate] writes. *)
Record CubeInsertionBoundary : Set := {
  ib_particle : SphericalParticle;
  ib_maxFailed : BinNums.Z;
  ib_posMin : Vec3D;
  ib_posMax : Vec3D;
  ib_velMin : Vec3D;
  ib_velMax : Vec3D;
  volumeFlowRate : float
}.

Definition setVolumeFlowRate (r : float) (b : CubeInsertionBoundary)
  : CubeInsertionBoundary :=
  {| ib_particle := ib_particle b; ib_maxFailed := ib_maxFailed b;
     ib_posMin := ib_posMin b; ib_posMax := ib_posMax b;
     ib_velMin := ib_velMin b; ib_velMax := ib_velMax b;
     volumeFlowRate := r |}.

(** The two wall classes of the driver.  An axisymmetric wall has a
    position, an orientation (its axis) and a list of (normal, point)
    objects given in the (r, z) half-plane; an infinite wall has a normal
    and a point. *)
Inductive WallShape : Set :=
| AxisymmetricIntersectionOfWalls
    (position orientation : Vec3D) (objects : list (Vec3D * Vec3D))
| InfiniteWall (normal point : Vec3D).

(** A wall in the handler: its shape and the velocity [setVelocity]
    writes.  A wall is created at rest. *)
Record BaseWall : Set := { shape : WallShape; velocity : Vec3D }.

Definition newWall (sh : WallShape) : BaseWall :=
  {| shape := sh; velocity := vec 0 0 0 |}.

Definition setVelocity (v : Vec3D) (w : BaseWall) : BaseWall :=
  {| shape := shape w; velocity := v |}.

(** ** Global variables (lines 10-17) *)

Record Globals : Set := {
  big_particle_radius : float;
  small_particle_radius : float;
  eps : float;
  stop_flow : float;
  oscillation_amplitude : float;
  pulse_interval : float;
  stop_kick : float
}.

Definition globals : Globals := {|
  big_particle_radius := 0.08;
  small_particle_radius := 0.02;
  eps := 0.2;
  stop_flow := 1.0;
  oscillation_amplitude := 1.0;
  pulse_interval := 0.25;
  stop_kick := 20.0
|}.

(** ** Writes observed on the engine's objects

    Ghost instrumentation: each setter call of [actionsAfterTimeStep]
    is logged with the time of the call and the line that made it.  The
    log is kept newest first; [trace] reads it in the order of the
    calls. *)
Inductive Write : Set :=
| FlowRateWrite (r : float)          (* line 75 *)
| KickWrite (v : Vec3D)              (* line 77 *)
| RestWrite (v : Vec3D).             (* line 81 *)

(** ** The simulation object

    [class Quantum : public Mercury3D], with the two function-local
    statics of [actionsAfterTimeStep], which live as long as the
    process.  [kick_count] is a C++ [int]: a [Z] that the driver keeps
    between [INT_MIN] and [INT_MAX] by wrap-around ([int_wrap]).  The
    boundary handler holds [CubeInsertionBoundary] objects only, the one
    class the driver ever adds, so the [dynamic_cast] of line 75 always
    succeeds on its last object; a handler with boundaries of other
    classes is outside this model. *)
Record Quantum : Set := {
  time : float;
  timeStep : float;
  xMin : float; xMax : float;
  yMin : float; yMax : float;
  zMin : float; zMax : float;
  wallHandler : list BaseWall;
  boundaryHandler : list CubeInsertionBoundary;
  particleHandler : list SphericalParticle;
  kick_count : BinNums.Z;
  kick_interval_counter : float;
  writes : list (float * Write)
}.

(** [handler.copyAndAddObject(o)] appends. *)
Definition copyAndAddObject {A : Type} (o : A) (h : list A) : list A :=
  h ++ [o].

(** [handler.getLastObject()->f()]: the last object is replaced by its
    image; on an empty handler the C++ dereferences nothing valid, which
    is [None] here. *)
Fixpoint onLastObject {A : Type} (f : A -> A) (h : list A)
  : option (list A) :=
  match h with
  | [] => None
  | [o] => Some [f o]
  | o :: h' =>
      match onLastObject f h' with
      | Some r => Some (o :: r)
      | None => None
      end
  end.

(** ** setupInitialConditions (lines 21-68) *)

Definition midpoint (q : Quantum) : Vec3D :=
  vec ((xMin q + xMax q) / 2.0)
      ((yMin q + yMax q) / 2.0)
      ((zMin q + zMax q) / 2.0).

Definition cylinder (q : Quantum) : BaseWall :=
  let mid := midpoint q in
  newWall (AxisymmetricIntersectionOfWalls
             (vec (Vec3D.X mid) (Vec3D.Y mid) 0)
             (vec 0 0 1)
             [(vec 1 0 0, vec ((xMax q - xMin q) / 4.0) 0 0)]).

Definition p1 (g : Globals) (q : Quantum) : SphericalParticle :=
  let mid := midpoint q in
  {| p_radius := big_particle_radius g;
     p_position := vec (Vec3D.X mid) (Vec3D.Y mid)
                       (2 * big_particle_radius g);
     p_velocity := vec 0 0 0 |}.

Definition p0 (g : Globals) : SphericalParticle :=
  {| p_radius := small_particle_radius g;
     p_position := vec 0 0 0;
     p_velocity := vec 0 0 0 |}.

(** Lines 51-54.  The flow rate [set] leaves is overwritten at once by
    [setVolumeFlowRate(1)]. *)
Definition ib (g : Globals) (q : Quantum) : CubeInsertionBoundary :=
  let mid := midpoint q in
  setVolumeFlowRate 1
    {| ib_particle := p0 g; ib_maxFailed := 1%Z;
       ib_posMin := vec (Vec3D.X mid - eps g) (Vec3D.Y mid - eps g)
                        (Vec3D.Z mid - eps g);
       ib_posMax := vec (Vec3D.X mid + eps g) (Vec3D.Y mid + eps g)
                        (Vec3D.Z mid + eps g);
       ib_velMin := vec 0 0 0; ib_velMax := vec 0 0 0;
       volumeFlowRate := 0 |}.

Definition top_wall (q : Quantum) : BaseWall :=
  newWall (InfiniteWall (vec 0.0 0.0 1.0) (vec 0.0 0.0 (zMax q))).

Definition bottom_wall : BaseWall :=
  newWall (InfiniteWall (vec 0.0 0.0 (-1.0)) (vec 0.0 0.0 0.0)).

Definition setupInitialConditions (g : Globals) (q : Quantum) : Quantum :=
  {| time := time q; timeStep := timeStep q;
     xMin := xMin q; xMax := xMax q;
     yMin := yMin q; yMax := yMax q;
     zMin := zMin q; zMax := zMax q;
     wallHandler :=
       copyAndAddObject bottom_wall
         (copyAndAddObject (top_wall q)
            (copyAndAddObject (cylinder q) (wallHandler q)));
     boundaryHandler := copyAndAddObject (ib g q) (boundaryHandler q);
     particleHandler := copyAndAddObject (p1 g q) (particleHandler q);
     kick_count := kick_count q;
     kick_interval_counter := kick_interval_counter q;
     writes := writes q |}.

(** ** actionsAfterTimeStep (lines 70-83) *)

(** [kick_count] is a 32-bit [int].  [kick_count += 1] is computed in
    [Z] and brought back into the range of [int] by two's-complement
    wrap-around, which is what the compiled program does at [INT_MAX]
    (the C++ standard leaves that overflow undefined). *)
Definition int_wrap (z : BinNums.Z) : BinNums.Z :=
  ((z + 2147483648) mod 4294967296 - 2147483648)%Z.

(** [pow(-1, kick_count)]: both arguments are promoted to [double]; for
    an integral exponent the result is exactly 1 or -1 by parity. *)
Definition pow_m1 (k : BinNums.Z) : float :=
  if Z.even k then 1 else -1.

Definition kick_velocity (g : Globals) (k : BinNums.Z) : Vec3D :=
  vec 0.0 0.0 (oscillation_amplitude g * pow_m1 k).

Definition with_boundaries (q : Quantum) (h : list CubeInsertionBoundary)
  (w : Write) : Quantum :=
  {| time := time q; timeStep := timeStep q;
     xMin := xMin q; xMax := xMax q;
     yMin := yMin q; yMax := yMax q;
     zMin := zMin q; zMax := zMax q;
     wallHandler := wallHandler q;
     boundaryHandler := h;
     particleHandler := particleHandler q;
     kick_count := kick_count q;
     kick_interval_counter := kick_interval_counter q;
     writes := (time q, w) :: writes q |}.

Definition with_walls (q : Quantum) (h : list BaseWall) (w : Write)
  (k : BinNums.Z) (c : float) : Quantum :=
  {| time := time q; timeStep := timeStep q;
     xMin := xMin q; xMax := xMax q;
     yMin := yMin q; yMax := yMax q;
     zMin := zMin q; zMax := zMax q;
     wallHandler := h;
     boundaryHandler := boundaryHandler q;
     particleHandler := particleHandler q;
     kick_count := k;
     kick_interval_counter := c;
     writes := (time q, w) :: writes q |}.

(** The three guards, as written: [a > b] on doubles is [b < a]. *)
Definition flow_edge (g : Globals) (q : Quantum) : bool :=
  (time q <? stop_flow g) && (stop_flow g <? time q + timeStep q).

Definition kick_window (g : Globals) (q : Quantum) : bool :=
  (kick_interval_counter q <? time q)
  && (time q <? kick_interval_counter q + pulse_interval g).

Definition past_stop_kick (g : Globals) (q : Quantum) : bool :=
  stop_kick g <? time q.

Definition actionsAfterTimeStep (g : Globals) (q : Quantum)
  : option Quantum :=
  if flow_edge g q then
    match onLastObject (setVolumeFlowRate 0) (boundaryHandler q) with
    | Some h => Some (with_boundaries q h (FlowRateWrite 0))
    | None => None
    end
  else if kick_window g q then
    let v := kick_velocity g (kick_count q) in
    match onLastObject (setVelocity v) (wallHandler q) with
    | Some h =>
        Some (with_walls q h (KickWrite v)
                (int_wrap (kick_count q + 1))
                (kick_interval_counter q + pulse_interval g))
    | None => None
    end
  else if past_stop_kick g q then
    let v := vec 0.0 0.0 0.0 in
    match onLastObject (setVelocity v) (wallHandler q) with
    | Some h =>
        Some (with_walls q h (RestWrite v)
                (kick_count q) (kick_interval_counter q))
    | None => None
    end
  else Some q.

(** ** The engine around the driver

    [main] (lines 87-131) sets the upper bounds of the box and the time
    step; the clock and the lower bounds keep the engine's initial 0;
    the statics start at 0 and 1.5 (lines 71-72). *)
Definition problem : Quantum := {|
  time := 0; timeStep := 0.005 / 50.0;
  xMin := 0; xMax := 1.0;
  yMin := 0; yMax := 1.0;
  zMin := 0; zMax := 3.0;
  wallHandler := []; boundaryHandler := []; particleHandler := [];
  kick_count := 0%Z;
  kick_interval_counter := 1.5;
  writes := []
|}.

Definition set_time (t : float) (q : Quantum) : Quantum :=
  {| time := t; timeStep := timeStep q;
     xMin := xMin q; xMax := xMax q;
     yMin := yMin q; yMax := yMax q;
     zMin := zMin q; zMax := zMax q;
     wallHandler := wallHandler q;
     boundaryHandler := boundaryHandler q;
     particleHandler := particleHandler q;
     kick_count := kick_count q;
     kick_interval_counter := kick_interval_counter q;
     writes := writes q |}.

(** One call of the driver per step, at the times the engine's clock
    shows. *)
Fixpoint run (g : Globals) (ts : list float) (q : Quantum)
  : option Quantum :=
  match ts with
  | [] => Some q
  | t :: ts' =>
      match actionsAfterTimeStep g (set_time t q) with
      | Some q' => run g ts' q'
      | None => None
      end
  end.

(** The clock of a fixed-step engine: each step adds [timeStep] to the
    time, in double precision; the driver runs after the time advanced. *)
Fixpoint clock (n : nat) (t dt : float) : list float :=
  match n with
  | O => []
  | S n' => (t + dt) :: clock n' (t + dt) dt
  end.

Fixpoint solve (g : Globals) (n : nat) (q : Quantum) : option Quantum :=
  match n with
  | O => Some q
  | S n' =>
      match actionsAfterTimeStep g (set_time (time q + timeStep q) q) with
      | Some q' => solve g n' q'
      | None => None
      end
  end.

Definition trace (q : Quantum) : list (float * Write) := rev (writes q).

(** ** Observations on a state and on its log *)

(** Both handlers hold an object, as after [setupInitialConditions]. *)
Definition handlers_ready (q : Quantum) : bool :=
  match wallHandler q, boundaryHandler q with
  | _ :: _, _ :: _ => true
  | _, _ => false
  end.

(** The object [getLastObject] returns. *)
Definition lastObject {A : Type} (h : list A) : option A :=
  match rev h with
  | o :: _ => Some o
  | [] => None
  end.

Definition is_flow_write (tw : float * Write) : bool :=
  match snd tw with FlowRateWrite _ => true | _ => false end.

(** The velocities written by line 77, in log order. *)
Fixpoint kicks (l : list (float * Write)) : list Vec3D :=
  match l with
  | [] => []
  | (_, KickWrite v) :: l' => v :: kicks l'
  | _ :: l' => kicks l'
  end.

(** A velocity the claims allow on the floor: vertical, and zero or plus
    or minus the amplitude. *)
Definition vertical_kick (g : Globals) (v : Vec3D) : Prop :=
  Vec3D.X v = 0 /\ Vec3D.Y v = 0 /\
  (Vec3D.Z v = 0 \/ Vec3D.Z v = oscillation_amplitude g
   \/ Vec3D.Z v = - oscillation_amplitude g).

Definition wall_write_ok (g : Globals) (tw : float * Write) : Prop :=
  match snd tw with
  | FlowRateWrite _ => True
  | KickWrite v | RestWrite v => vertical_kick g v
  end.

(** What one call does to the walls: nothing, or a vertical velocity on
    the last one. *)
Definition floor_only (g : Globals) (w w' : list BaseWall) : Prop :=
  w' = w \/
  exists h o v, w = h ++ [o] /\ w' = h ++ [setVelocity v o] /\
                vertical_kick g v.

(** Time does not go back along [t :: ts]. *)
Fixpoint advancing (t : float) (ts : list float) : bool :=
  match ts with
  | [] => true
  | t' :: ts' => (t <=? t') && advancing t' ts'
  end.

(** ** The real number a double holds *)

Definition SF2Q (x : spec_float) : option Q :=
  match x with
  | S754_zero _ => Some 0%Q
  | S754_finite s m e =>
      Some (inject_Z (cond_Zopp s (Zpos m)) * Qpower 2 e)%Q
  | S754_infinity _ | S754_nan => None
  end.

Definition F2Q (x : float) : option Q := SF2Q (Prim2SF x).

(** [x] shifted left by [k] bits. *)
Definition shl (x : positive) (k : nat) : positive := Nat.iter k xO x.

Definition digits (n : positive) : nat := Pos.to_nat (digits2_pos n).

(** The normalised double of value [n / 4], for [n] below [2^53]. *)
Definition quarters (n : positive) : spec_float :=
  S754_finite false (shl n (53 - digits n)) (Z.of_nat (digits n) - 55).

Definition exact (m : positive) : shr_record :=
  {| shr_m := Zpos m; shr_r := false; shr_s := false |}.

Definition SF_one : spec_float := S754_finite false 4503599627370496 (-52).

Definition SF_quarter : spec_float :=
  S754_finite false 4503599627370496 (-54).

(** [INT_MAX], the largest value of the C++ [int] holding [kick_count]. *)
Definition INT_MAX : BinNums.Z := 2147483647.
Definition INT_MIN : BinNums.Z := (-2147483648)%Z.

(** The globals with a pulse interval that is no binary fraction. *)
Definition tenth_pulse : Globals := {|
  big_particle_radius := 0.08;
  small_particle_radius := 0.02;
  eps := 0.2;
  stop_flow := 1.0;
  oscillation_amplitude := 1.0;
  pulse_interval := 0.1;
  stop_kick := 20.0
|}.

(** ** The four outcomes of one call

    [fired g q q'] reads the else-if chain of [actionsAfterTimeStep] as
    a relation: which guard was taken and what it did. *)
Inductive fired (g : Globals) (q : Quantum) : Quantum -> Prop :=
| fired_flow h :
    flow_edge g q = true ->
    onLastObject (setVolumeFlowRate 0) (boundaryHandler q) = Some h ->
    fired g q (with_boundaries q h (FlowRateWrite 0))
| fired_kick h :
    flow_edge g q = false ->
    kick_window g q = true ->
    onLastObject (setVelocity (kick_velocity g (kick_count q)))
      (wallHandler q) = Some h ->
    fired g q (with_walls q h (KickWrite (kick_velocity g (kick_count q)))
                 (int_wrap (kick_count q + 1))
                 (kick_interval_counter q + pulse_interval g))
| fired_rest h :
    flow_edge g q = false ->
    kick_window g q = false ->
    past_stop_kick g q = true ->
    onLastObject (setVelocity (vec 0.0 0.0 0.0)) (wallHandler q) = Some h ->
    fired g q (with_walls q h (RestWrite (vec 0.0 0.0 0.0))
                 (kick_count q) (kick_interval_counter q))
| fired_none :
    flow_edge g q = false ->
    kick_window g q = false ->
    past_stop_kick g q = false ->
    fired g q q.

(** ** Concrete runs *)

Definition with_timeStep (dt : float) (q : Quantum) : Quantum :=
  {| time := time q; timeStep := dt;
     xMin := xMin q; xMax := xMax q;
     yMin := yMin q; yMax := yMax q;
     zMin := zMin q; zMax := zMax q;
     wallHandler := wallHandler q;
     boundaryHandler := boundaryHandler q;
     particleHandler := particleHandler q;
     kick_count := kick_count q;
     kick_interval_counter := kick_interval_counter q;
     writes := writes q |}.

(** The program as [main] starts it, after [setupInitialConditions]. *)
Definition initial : Quantum := setupInitialConditions globals problem.

(** What an observer of the experiment reads off a state: the clock,
    the two statics, the floor's velocity, the flow rate and the most
    recent write. *)
Record Observation : Set := {
  at_time : float;
  kicks_so_far : BinNums.Z;
  next_kick : float;
  floor_velocity : option Vec3D;
  flow_rate : option float;
  last_write : option (float * Write)
}.

Definition observe (q : Quantum) : Observation :=
  {| at_time := time q;
     kicks_so_far := kick_count q;
     next_kick := kick_interval_counter q;
     floor_velocity := option_map velocity (lastObject (wallHandler q));
     flow_rate := option_map volumeFlowRate (lastObject (boundaryHandler q));
     last_write := hd_error (writes q) |}.

(** The state of the program after [n] steps of [main]'s run. *)
Definition after (n : nat) : option Observation :=
  option_map observe (solve globals n initial).

(** The globals with the inflow stopped inside the first kick window. *)
Definition late_shutoff : Globals := {|
  big_particle_radius := big_particle_radius globals;
  small_particle_radius := small_particle_radius globals;
  eps := eps globals;
  stop_flow := 1.6;
  oscillation_amplitude := oscillation_amplitude globals;
  pulse_interval := pulse_interval globals;
  stop_kick := stop_kick globals
|}.

(** The same experiment stepped by 0.25 and by 0.5. *)
Definition initial_quarter_step : Quantum := with_timeStep 0.25 initial.
Definition initial_half_step : Quantum := with_timeStep 0.5 initial.

(** ** Further observations on the log and on the handlers *)

(** The times at which line 77 wrote, in log order. *)
Fixpoint kick_times (l : list (float * Write)) : list float :=
  match l with
  | [] => []
  | (t, KickWrite _) :: l' => t :: kick_times l'
  | _ :: l' => kick_times l'
  end.

(** The threshold after [n] kicks: [pulse_interval] added [n] times. *)
Definition threshold_after (g : Globals) (c : float) (n : nat) : float :=
  Nat.iter n (fun c => c + pulse_interval g) c.

(** The most recent velocity and flow rate in a newest-first log. *)
Fixpoint last_wall_write (l : list (float * Write)) : option Vec3D :=
  match l with
  | [] => None
  | (_, KickWrite v) :: _ | (_, RestWrite v) :: _ => Some v
  | (_, FlowRateWrite _) :: l' => last_wall_write l'
  end.

Fixpoint last_flow_write (l : list (float * Write)) : option float :=
  match l with
  | [] => None
  | (_, FlowRateWrite r) :: _ => Some r
  | _ :: l' => last_flow_write l'
  end.

(** What a run does to the boundaries: nothing, or flow rate 0 on the
    last one. *)
Definition shutoff_only (b b' : list CubeInsertionBoundary) : Prop :=
  b' = b \/
  exists h o, b = h ++ [o] /\ b' = h ++ [setVolumeFlowRate 0 o].

(** The floor's velocity and the last boundary's flow rate are what the
    log last wrote, or [w0] and [f0] where it wrote none. *)
Definition log_coherent (w0 : option Vec3D) (f0 : option float)
  (q : Quantum) : Prop :=
  option_map velocity (lastObject (wallHandler q))
  = match last_wall_write (writes q) with Some v => Some v | None => w0 end
  /\
  option_map volumeFlowRate (lastObject (boundaryHandler q))
  = match last_flow_write (writes q) with Some r => Some r | None => f0 end.

(** The time of the last call of a run. *)
Definition final_time (t : float) (ts : list float) : float := last ts t.

(** * Binary64 facts the driver rests on

    The primitive operations are read through their specification
    ([Prim2SF] and the [SF] functions). *)

(** ** Order *)

Ltac sf_order :=
  repeat match goal with
    | |- context [Z.compare ?a ?b] =>
        destruct (Z.compare_spec a b); subst; simpl; try lia
    | H : context [Z.compare ?a ?b] |- _ =>
        destruct (Z.compare_spec a b); subst; simpl in H; try lia
    end;
  repeat match goal with
    | |- context [Pos.compare_cont Eq ?a ?b] =>
        change (Pos.compare_cont Eq a b) with (Pos.compare a b);
        destruct (Pos.compare_spec a b); subst; simpl; try lia
    | H : context [Pos.compare_cont Eq ?a ?b] |- _ =>
        change (Pos.compare_cont Eq a b) with (Pos.compare a b) in H;
        destruct (Pos.compare_spec a b); subst; simpl in H; try lia
    end;
  try discriminate; try reflexivity; try lia.

Lemma SFltb_SFleb_trans (a b c : spec_float) :
  SFltb a b = true -> SFleb b c = true -> SFltb a c = true.
Proof.
  unfold SFltb, SFleb, SFcompare.
  destruct a as [[|]|[|]| |[|] ma ea], b as [[|]|[|]| |[|] mb eb],
    c as [[|]|[|]| |[|] mc ec];
    simpl; intros Hab Hbc; try discriminate; try reflexivity; sf_order.
Qed.

Lemma SFleb_SFltb_trans (a b c : spec_float) :
  SFleb a b = true -> SFltb b c = true -> SFltb a c = true.
Proof.
  unfold SFltb, SFleb, SFcompare.
  destruct a as [[|]|[|]| |[|] ma ea], b as [[|]|[|]| |[|] mb eb],
    c as [[|]|[|]| |[|] mc ec];
    simpl; intros Hab Hbc; try discriminate; try reflexivity; sf_order.
Qed.

Lemma SFltb_asym (a b : spec_float) :
  SFltb a b = true -> SFltb b a = false.
Proof.
  unfold SFltb, SFcompare.
  destruct a as [[|]|[|]| |[|] ma ea], b as [[|]|[|]| |[|] mb eb];
    simpl; intros Hab; try discriminate; try reflexivity; sf_order.
Qed.

Lemma ltb_leb_trans (a b c : float) :
  (a <? b) = true -> (b <=? c) = true -> (a <? c) = true.
Proof. rewrite !ltb_spec, leb_spec. apply SFltb_SFleb_trans. Qed.

Lemma leb_ltb_trans (a b c : float) :
  (a <=? b) = true -> (b <? c) = true -> (a <? c) = true.
Proof. rewrite !ltb_spec, leb_spec. apply SFleb_SFltb_trans. Qed.

Lemma ltb_asym (a b : float) : (a <? b) = true -> (b <? a) = false.
Proof. rewrite !ltb_spec. apply SFltb_asym. Qed.

(** Once the time is not below [b], it never is again. *)
Lemma not_ltb_later (a a' b : float) :
  (a <? b) = false -> (a <=? a') = true -> (a' <? b) = false.
Proof.
  intros Hab Haa. destruct (a' <? b) eqn:E; [|reflexivity].
  now rewrite (leb_ltb_trans a a' b Haa E) in Hab.
Qed.

(** ** Shifts and exact rounding *)

Lemma iter_pos_iter {A : Type} (f : A -> A) (p : positive) (x : A) :
  SpecFloat.iter_pos f p x = Pos.iter f x p.
Proof.
  revert x; induction p as [p IH|p IH|]; intros x; simpl.
  - rewrite !IH. now rewrite !Pos.iter_swap.
  - now rewrite !IH.
  - reflexivity.
Qed.

Lemma digits2_pos_shift (m p : positive) :
  digits2_pos (Pos.iter xO m p) = (digits2_pos m + p)%positive.
Proof.
  induction p as [|p IH] using Pos.peano_ind.
  - simpl. lia.
  - rewrite Pos.iter_succ. simpl. rewrite IH. lia.
Qed.

Lemma shr_1_shift (m p : positive) :
  Pos.iter shr_1 (exact (Pos.iter xO m p)) p = exact m.
Proof.
  revert m. induction p as [|p IH] using Pos.peano_ind; intros m.
  - reflexivity.
  - rewrite (Pos.iter_succ_r p _ shr_1), (Pos.iter_succ p _ xO).
    apply (IH m).
Qed.

Lemma bounded_inv (m : positive) (e : BinNums.Z) :
  bounded prec emax m e = true ->
  fexp prec emax (Zpos (digits2_pos m) + e) = e /\ (e <= emax - prec)%Z.
Proof.
  unfold bounded, canonical_mantissa. intros H.
  apply andb_prop in H. destruct H as [H1 H2].
  split; [now apply Z.eqb_eq | now apply Z.leb_le].
Qed.

(** A valid mantissa shifted left by [p] bits rounds back to itself. *)
Lemma round_shifted (s : bool) (m p : positive) (e : BinNums.Z) :
  bounded prec emax m e = true ->
  binary_round_aux prec emax s (Zpos (Pos.iter xO m p)) (e - Zpos p) loc_Exact
  = S754_finite s m e.
Proof.
  intros Hb. destruct (bounded_inv m e Hb) as [Hc He].
  unfold binary_round_aux, shr_fexp.
  cbn [Zdigits2]. rewrite digits2_pos_shift.
  replace (Z.pos (digits2_pos m + p) + (e - Z.pos p))%Z
    with (Zpos (digits2_pos m) + e)%Z by lia.
  rewrite Hc.
  replace (e - (e - Z.pos p))%Z with (Zpos p) by lia.
  cbn [shr_record_of_loc shr]. rewrite iter_pos_iter.
  change {| shr_m := Z.pos (Pos.iter xO m p); shr_r := false; shr_s := false |}
    with (exact (Pos.iter xO m p)).
  rewrite shr_1_shift.
  cbn [exact shr_m loc_of_shr_record round_nearest_even Zdigits2].
  replace (e - Z.pos p + Z.pos p)%Z with e by lia.
  rewrite Hc, Z.sub_diag. cbn [shr shr_record_of_loc shr_m].
  apply Z.leb_le in He. now rewrite He.
Qed.

(** ** Multiplying by 1 and by -1 is exact *)

Lemma SFmul_one (s : bool) (x : spec_float) :
  valid_binary x = true ->
  SF64mul x (if s then SFopp SF_one else SF_one)
  = if s then SFopp x else x.
Proof.
  destruct x as [sx|sx| |sx m e]; intros Hv;
    try (now destruct s, sx); try (now destruct s).
  assert (E : SF64mul (S754_finite sx m e) (if s then SFopp SF_one else SF_one)
              = binary_round_aux prec emax (xorb sx s)
                  (Zpos (Pos.iter xO m 52)) (e - 52) loc_Exact).
  { destruct s; unfold SF64mul, SFmul, SF_one, SFopp; cbn [negb];
      rewrite (Pos.mul_comm m); reflexivity. }
  rewrite E, (round_shifted (xorb sx s) m 52 e Hv).
  destruct s; [now rewrite xorb_true_r | now rewrite xorb_false_r].
Qed.

Lemma mul_one_r (x : float) : x * 1 = x.
Proof.
  apply Prim2SF_inj. rewrite mul_spec.
  change (Prim2SF 1) with SF_one.
  apply (SFmul_one false), Prim2SF_valid.
Qed.

Lemma mul_m1_r (x : float) : x * (-1) = - x.
Proof.
  apply Prim2SF_inj. rewrite mul_spec, opp_spec.
  change (Prim2SF (-1)) with (SFopp SF_one).
  apply (SFmul_one true), Prim2SF_valid.
Qed.

(** ** Adding 0.25 to a multiple of 0.25 is exact *)

Lemma iter_xO_shl (x p : positive) : Pos.iter xO x p = shl x (Pos.to_nat p).
Proof. apply Pos2Nat.inj_iter. Qed.

Lemma shl_shl (x : positive) (a b : nat) : shl (shl x a) b = shl x (b + a).
Proof. unfold shl. now rewrite Nat.iter_add. Qed.

Lemma shl_add (x y : positive) (k : nat) :
  (shl x k + shl y k)%positive = shl (x + y) k.
Proof. induction k as [|k IH]; simpl; [reflexivity|]. now rewrite <- IH. Qed.

Lemma digits2_pos_shl (x : positive) (k : nat) :
  Zpos (digits2_pos (shl x k)) = (Zpos (digits2_pos x) + Z.of_nat k)%Z.
Proof.
  induction k as [|k IH].
  - simpl. lia.
  - change (shl x (S k)) with (xO (shl x k)). cbn [digits2_pos]. lia.
Qed.

Lemma Zpos_shl (x : positive) (k : nat) :
  Zpos (shl x k) = (Zpos x * 2 ^ Z.of_nat k)%Z.
Proof.
  induction k as [|k IH].
  - simpl. lia.
  - change (shl x (S k)) with (xO (shl x k)).
    rewrite Pos2Z.inj_xO, IH, Nat2Z.inj_succ, Z.pow_succ_r by lia. lia.
Qed.

Lemma digits_succ_ge2 (n : positive) : (2 <= digits (n + 1))%nat.
Proof. unfold digits. rewrite Pos.add_1_r. destruct n; simpl; lia. Qed.

Lemma digits_le_succ (n : positive) : (digits n <= digits (n + 1))%nat.
Proof.
  unfold digits.
  enough (H : (digits2_pos n <= digits2_pos (n + 1))%positive) by lia.
  induction n as [n IH|n IH|]; rewrite ?Pos.add_1_r in *; simpl; lia.
Qed.

Lemma SFadd_quarter (n : positive) :
  (digits (n + 1) <= 53)%nat ->
  SF64add (quarters n) SF_quarter = quarters (n + 1).
Proof.
  intros Hd.
  pose proof (digits_le_succ n) as Hle.
  pose proof (digits_succ_ge2 n) as Hge.
  assert (H1 : (1 <= digits n)%nat) by (unfold digits; lia).
  unfold SF64add, SFadd, quarters, SF_quarter.
  replace (Z.min (Z.of_nat (digits n) - 55) (-54)) with (-54)%Z by lia.
  assert (Hx : fst (shl_align (shl n (53 - digits n))
                      (Z.of_nat (digits n) - 55) (-54)) = shl n 52).
  { unfold shl_align.
    destruct (-54 - (Z.of_nat (digits n) - 55))%Z as [|p|p] eqn:E; try lia.
    - cbn [fst]. f_equal. lia.
    - cbn [fst]. rewrite iter_xO_shl, shl_shl. f_equal. lia. }
  rewrite Hx.
  change (fst (shl_align 4503599627370496 (-54) (-54))) with (shl 1 52).
  cbn [cond_Zopp Z.add]. rewrite shl_add.
  cbn [binary_normalize]. unfold binary_round.
  set (d := digits (n + 1)) in *.
  assert (Hdig : Zpos (digits2_pos (n + 1)) = Z.of_nat d)
    by (unfold d, digits; lia).
  assert (Hf : fexp prec emax (Zpos (digits2_pos (shl (n + 1) 52)) + -54)
               = (Z.of_nat d - 55)%Z).
  { rewrite digits2_pos_shl, Hdig.
    unfold fexp, SpecFloat.emin, prec, emax. lia. }
  rewrite Hf.
  assert (Ha : shl_align (shl (n + 1) 52) (-54) (Z.of_nat d - 55)
               = (shl (n + 1) 52, (-54)%Z)).
  { unfold shl_align.
    destruct (Z.of_nat d - 55 - -54)%Z eqn:E; try reflexivity; lia. }
  rewrite Ha.
  replace (shl (n + 1) 52)
    with (Pos.iter xO (shl (n + 1) (53 - d)) (Pos.of_nat (d - 1))).
  2:{ rewrite iter_xO_shl, shl_shl. f_equal. lia. }
  replace (-54)%Z
    with (Z.of_nat d - 55 - Zpos (Pos.of_nat (d - 1)))%Z at 1 by lia.
  apply round_shifted.
  unfold bounded, canonical_mantissa.
  rewrite digits2_pos_shl, Hdig.
  apply andb_true_intro; split.
  - apply Z.eqb_eq. unfold fexp, SpecFloat.emin, prec, emax. lia.
  - apply Z.leb_le. unfold prec, emax. lia.
Qed.

(** The value of [quarters n] is [n / 4]. *)
Lemma SF2Q_quarters (n : positive) :
  (digits n <= 53)%nat ->
  exists v, SF2Q (quarters n) = Some v /\ (v == inject_Z (Zpos n) * (1 # 4))%Q.
Proof.
  intros Hd. unfold quarters, SF2Q. eexists; split; [reflexivity|].
  cbn [cond_Zopp]. rewrite Zpos_shl.
  assert (H1 : (1 <= digits n)%nat) by (unfold digits; lia).
  set (a := Z.of_nat (53 - digits n)).
  replace (Z.of_nat (digits n) - 55)%Z with (- (a + 2))%Z by lia.
  rewrite inject_Z_mult, Zpower_Qpower by lia.
  rewrite Qpower_opp, Qpower_plus by discriminate.
  change (inject_Z 2) with 2%Q.
  assert (Hp : ~ (2 ^ a == 0)%Q).
  { apply Qpower_not_0. discriminate. }
  change (2 ^ 2)%Q with 4%Q. field. exact Hp.
Qed.

(** * The handlers *)

Lemma onLastObject_last {A : Type} (f : A -> A) (h : list A) (o : A) :
  onLastObject f (h ++ [o]) = Some (h ++ [f o]).
Proof.
  induction h as [|a h IH]; [reflexivity|].
  cbn [app onLastObject]. rewrite IH.
  destruct (h ++ [o]) eqn:E; [now destruct h|reflexivity].
Qed.

Lemma onLastObject_inv {A : Type} (f : A -> A) (h r : list A) :
  onLastObject f h = Some r ->
  exists h' o, h = h' ++ [o] /\ r = h' ++ [f o].
Proof.
  destruct h as [|a h0]; [discriminate|].
  assert (Hne : a :: h0 <> []) by discriminate.
  destruct (exists_last Hne) as [h' [o E]]. rewrite E.
  rewrite onLastObject_last. intros H. injection H as <-.
  now exists h', o.
Qed.

Lemma onLastObject_some {A : Type} (f : A -> A) (h : list A) :
  h <> [] -> exists r, onLastObject f h = Some r /\ r <> [].
Proof.
  intros Hne. destruct (exists_last Hne) as [h' [o ->]].
  exists (h' ++ [f o]). split; [apply onLastObject_last|].
  now destruct h'.
Qed.

Lemma lastObject_last {A : Type} (h : list A) (o : A) :
  lastObject (h ++ [o]) = Some o.
Proof. unfold lastObject. now rewrite rev_unit. Qed.

(** * One call of [actionsAfterTimeStep] *)

Lemma actions_fired (g : Globals) (q q' : Quantum) :
  actionsAfterTimeStep g q = Some q' -> fired g q q'.
Proof.
  unfold actionsAfterTimeStep.
  destruct (flow_edge g q) eqn:Ef.
  { destruct (onLastObject _ (boundaryHandler q)) as [h|] eqn:Eh;
      [|discriminate].
    intros H; injection H as <-. now apply fired_flow. }
  destruct (kick_window g q) eqn:Ek.
  { destruct (onLastObject _ (wallHandler q)) as [h|] eqn:Eh;
      [|discriminate].
    intros H; injection H as <-. now apply fired_kick. }
  destruct (past_stop_kick g q) eqn:Es.
  { destruct (onLastObject _ (wallHandler q)) as [h|] eqn:Eh;
      [|discriminate].
    intros H; injection H as <-. now apply fired_rest. }
  intros H; injection H as <-. now apply fired_none.
Qed.

Lemma fired_actions (g : Globals) (q q' : Quantum) :
  fired g q q' -> actionsAfterTimeStep g q = Some q'.
Proof.
  unfold actionsAfterTimeStep.
  intros [h Ef Eh|h Ef Ek Eh|h Ef Ek Es Eh|Ef Ek Es];
    rewrite ?Ef, ?Ek, ?Es, ?Eh; reflexivity.
Qed.

Lemma handlers_ready_inv (q : Quantum) :
  handlers_ready q = true -> wallHandler q <> [] /\ boundaryHandler q <> [].
Proof.
  unfold handlers_ready.
  destruct (wallHandler q), (boundaryHandler q); try discriminate.
  now split.
Qed.

Lemma handlers_ready_intro (q : Quantum) :
  wallHandler q <> [] -> boundaryHandler q <> [] -> handlers_ready q = true.
Proof.
  unfold handlers_ready.
  destruct (wallHandler q), (boundaryHandler q); try reflexivity;
    intros H1 H2; now (contradiction H1 || contradiction H2).
Qed.

(** With objects in both handlers the call returns, and leaves objects
    in both. *)
Lemma actions_total (g : Globals) (q : Quantum) :
  handlers_ready q = true ->
  exists q', actionsAfterTimeStep g q = Some q' /\ handlers_ready q' = true.
Proof.
  intros Hr. destruct (handlers_ready_inv q Hr) as [Hw Hb].
  unfold actionsAfterTimeStep.
  destruct (flow_edge g q).
  { destruct (onLastObject_some (setVolumeFlowRate 0) _ Hb) as [h [-> Hh]].
    eexists; split; [reflexivity|]. now apply handlers_ready_intro. }
  destruct (kick_window g q).
  { destruct (onLastObject_some
                (setVelocity (kick_velocity g (kick_count q))) _ Hw)
      as [h [-> Hh]].
    eexists; split; [reflexivity|]. now apply handlers_ready_intro. }
  destruct (past_stop_kick g q).
  { destruct (onLastObject_some (setVelocity (vec 0.0 0.0 0.0)) _ Hw)
      as [h [-> Hh]].
    eexists; split; [reflexivity|]. now apply handlers_ready_intro. }
  now exists q.
Qed.

(** The call never touches the clock. *)
Lemma fired_clock (g : Globals) (q q' : Quantum) :
  fired g q q' -> time q' = time q /\ timeStep q' = timeStep q.
Proof. intros []; now split. Qed.

(** * Runs *)

Lemma run_total (g : Globals) (ts : list float) (q : Quantum) :
  handlers_ready q = true ->
  exists q', run g ts q = Some q' /\ handlers_ready q' = true.
Proof.
  revert q. induction ts as [|t ts IH]; intros q Hr.
  - now exists q.
  - cbn [run].
    destruct (actions_total g (set_time t q) Hr) as [q1 [-> Hr1]].
    apply IH, Hr1.
Qed.

Lemma solve_run (g : Globals) (n : nat) (q : Quantum) :
  solve g n q = run g (clock n (time q) (timeStep q)) q.
Proof.
  revert q. induction n as [|n IH]; intros q; [reflexivity|].
  cbn [solve clock run].
  destruct (actionsAfterTimeStep g (set_time (time q + timeStep q) q))
    as [q1|] eqn:E; [|reflexivity].
  destruct (fired_clock _ _ _ (actions_fired _ _ _ E)) as [Ht Hdt].
  cbn [set_time time timeStep] in Ht, Hdt.
  now rewrite IH, Ht, Hdt.
Qed.

Lemma kicks_app (l1 l2 : list (float * Write)) :
  kicks (l1 ++ l2) = kicks l1 ++ kicks l2.
Proof.
  induction l1 as [|[t [r|v|v]] l1 IH]; cbn [app kicks];
    rewrite ?IH; reflexivity.
Qed.

(** * The counter *)

Lemma int_wrap_id (z : BinNums.Z) :
  (INT_MIN <= z <= INT_MAX)%Z -> int_wrap z = z.
Proof.
  unfold INT_MIN, INT_MAX, int_wrap. intros H.
  rewrite Z.mod_small by lia. lia.
Qed.

Lemma int_wrap_range (z : BinNums.Z) :
  (INT_MIN <= int_wrap z <= INT_MAX)%Z.
Proof.
  unfold INT_MIN, INT_MAX, int_wrap.
  pose proof (Z.mod_pos_bound (z + 2147483648) 4294967296 ltac:(lia)). lia.
Qed.

Lemma int_wrap_succ (z : BinNums.Z) :
  int_wrap (int_wrap z + 1) = int_wrap (z + 1).
Proof.
  unfold int_wrap. f_equal.
  replace ((z + 2147483648) mod 4294967296 - 2147483648 + 1 + 2147483648)%Z
    with ((z + 2147483648) mod 4294967296 + 1)%Z by lia.
  rewrite Z.add_mod_idemp_l by lia. f_equal. lia.
Qed.

(** At [INT_MAX] the counter wraps to [INT_MIN]. *)
Lemma int_wrap_overflow : int_wrap (INT_MAX + 1) = INT_MIN.
Proof. reflexivity. Qed.

(** Wrap-around keeps the parity, so [pow(-1, kick_count)] is not
    affected by it. *)
Lemma int_wrap_even (z : BinNums.Z) : Z.even (int_wrap z) = Z.even z.
Proof.
  unfold int_wrap.
  rewrite (Z.mod_eq (z + 2147483648) 4294967296) by lia.
  replace (z + 2147483648
           - 4294967296 * ((z + 2147483648) / 4294967296) - 2147483648)%Z
    with (z + 2 * (- 2147483648 * ((z + 2147483648) / 4294967296)))%Z
    by lia.
  rewrite Z.even_add_mul_2. reflexivity.
Qed.

Lemma kick_velocity_wrap (g : Globals) (z : BinNums.Z) :
  kick_velocity g (int_wrap z) = kick_velocity g z.
Proof. unfold kick_velocity, pow_m1. now rewrite int_wrap_even. Qed.

(** * The claims *)

(** C9.  One call performs at most one of the three actions, tried in
    the order flow-rate write, kick, zero forcing.  On the call where
    the flow-shutoff edge is taken no kick fires: the walls,
    [kick_count] and [kick_interval_counter] are unchanged, whether or
    not the time lies inside the kick window.  A kick counts one up in
    [int]: by one while [kick_count] is below [INT_MAX], with
    wrap-around there. *)
Theorem at_most_one_action (g : Globals) (q q' : Quantum) :
  actionsAfterTimeStep g q = Some q' ->
  (length (writes q') <= S (length (writes q)))%nat /\
  (flow_edge g q = true ->
     writes q' = (time q, FlowRateWrite 0) :: writes q /\
     onLastObject (setVolumeFlowRate 0) (boundaryHandler q)
       = Some (boundaryHandler q') /\
     wallHandler q' = wallHandler q /\
     kick_count q' = kick_count q /\
     kick_interval_counter q' = kick_interval_counter q) /\
  (flow_edge g q = false -> kick_window g q = true ->
     writes q'
       = (time q, KickWrite (kick_velocity g (kick_count q))) :: writes q /\
     boundaryHandler q' = boundaryHandler q /\
     onLastObject (setVelocity (kick_velocity g (kick_count q)))
       (wallHandler q) = Some (wallHandler q') /\
     kick_count q' = int_wrap (kick_count q + 1) /\
     ((INT_MIN <= kick_count q < INT_MAX)%Z ->
      kick_count q' = (kick_count q + 1)%Z) /\
     kick_interval_counter q'
       = kick_interval_counter q + pulse_interval g) /\
  (flow_edge g q = false -> kick_window g q = false ->
   past_stop_kick g q = true ->
     writes q' = (time q, RestWrite (vec 0 0 0)) :: writes q /\
     boundaryHandler q' = boundaryHandler q /\
     onLastObject (setVelocity (vec 0 0 0)) (wallHandler q)
       = Some (wallHandler q') /\
     kick_count q' = kick_count q /\
     kick_interval_counter q' = kick_interval_counter q) /\
  (flow_edge g q = false -> kick_window g q = false ->
   past_stop_kick g q = false -> q' = q).
Proof.
  intros H. apply actions_fired in H.
  destruct H as [h Ef Eh|h Ef Ek Eh|h Ef Ek Es Eh|Ef Ek Es];
    cbn [with_boundaries with_walls writes wallHandler boundaryHandler
         kick_count kick_interval_counter length];
    (split; [lia|]);
    repeat split; try congruence; try (intros; congruence).
  intros Hk. apply int_wrap_id. unfold INT_MIN, INT_MAX in *. lia.
Qed.

Lemma at_most_one_action_witness :
  exists q',
    actionsAfterTimeStep late_shutoff
      (set_time 1.55 (with_timeStep 0.1 initial)) = Some q' /\
    flow_edge late_shutoff (set_time 1.55 (with_timeStep 0.1 initial)) = true /\
    kick_window late_shutoff (set_time 1.55 (with_timeStep 0.1 initial))
    = true /\
    writes q' = [(1.55, FlowRateWrite 0)] /\
    wallHandler q' = wallHandler initial /\
    kick_count q' = 0%Z /\
    kick_interval_counter q' = 1.5.
Proof.
  eexists. split; [vm_compute; reflexivity|].
  split; [reflexivity|]. split; [reflexivity|].
  match goal with
  | |- writes ?q' = _ /\ _ =>
      destruct (at_most_one_action late_shutoff
                  (set_time 1.55 (with_timeStep 0.1 initial)) q' eq_refl)
        as [_ [H _]]
  end.
  destruct (H eq_refl) as [Hw [_ [Hh [Hc Hk]]]].
  repeat split; assumption.
Defined.

Lemma kick_velocity_vertical (g : Globals) (k : BinNums.Z) :
  vertical_kick g (kick_velocity g k).
Proof.
  unfold vertical_kick, kick_velocity, pow_m1. cbn [Vec3D.X Vec3D.Y Vec3D.Z].
  repeat split; try reflexivity.
  destruct (Z.even k); [rewrite mul_one_r | rewrite mul_m1_r]; auto.
Qed.

Lemma rest_velocity_vertical (g : Globals) : vertical_kick g (vec 0 0 0).
Proof. unfold vertical_kick. cbn. auto. Qed.

Lemma floor_only_trans (g : Globals) (w1 w2 w3 : list BaseWall) :
  floor_only g w1 w2 -> floor_only g w2 w3 -> floor_only g w1 w3.
Proof.
  intros [->|[h [o [v [E1 [E2 Hv]]]]]] H23; [exact H23|].
  destruct H23 as [->|[h' [o' [v' [E1' [E2' Hv']]]]]].
  - right. now exists h, o, v.
  - right. rewrite E2 in E1'. apply app_inj_tail in E1' as [<- <-].
    exists h, o, v'. split; [exact E1|]. split; [|exact Hv'].
    rewrite E2'. reflexivity.
Qed.

Lemma fired_floor_only (g : Globals) (q q' : Quantum) :
  fired g q q' -> floor_only g (wallHandler q) (wallHandler q').
Proof.
  intros [h Ef Eh|h Ef Ek Eh|h Ef Ek Es Eh|Ef Ek Es];
    cbn [with_boundaries with_walls wallHandler]; try (now left);
    apply onLastObject_inv in Eh as [h' [o [E1 E2]]]; right;
    exists h', o; eexists; (split; [exact E1|split; [exact E2|]]).
  - apply kick_velocity_vertical.
  - apply rest_velocity_vertical.
Qed.

Lemma fired_new_write (g : Globals) (q q' : Quantum) :
  fired g q q' ->
  exists new, writes q' = new ++ writes q /\ Forall (wall_write_ok g) new.
Proof.
  intros [h Ef Eh|h Ef Ek Eh|h Ef Ek Es Eh|Ef Ek Es];
    cbn [with_boundaries with_walls writes].
  - exists [(time q, FlowRateWrite 0)]. split; [reflexivity|].
    repeat constructor.
  - exists [(time q, KickWrite (kick_velocity g (kick_count q)))].
    split; [reflexivity|]. constructor; [|constructor].
    apply kick_velocity_vertical.
  - exists [(time q, RestWrite (vec 0 0 0))].
    split; [reflexivity|]. constructor; [|constructor].
    apply rest_velocity_vertical.
  - exists []. split; [reflexivity|constructor].
Qed.

(** C10.  Every velocity the controller writes to a wall has zero x and
    y components and a z component that is 0, +amplitude or
    -amplitude; only the last wall of the handler (the floor) is ever
    written, and its shape is kept. *)
Theorem wall_writes_vertical (g : Globals) (ts : list float) (q : Quantum) :
  handlers_ready q = true ->
  exists q' new,
    run g ts q = Some q' /\
    writes q' = new ++ writes q /\
    Forall (wall_write_ok g) new /\
    floor_only g (wallHandler q) (wallHandler q').
Proof.
  revert q. induction ts as [|t ts IH]; intros q Hr.
  - exists q, []. repeat split; [constructor|now left].
  - cbn [run].
    destruct (actions_total g (set_time t q) Hr) as [q1 [E Hr1]].
    rewrite E. apply actions_fired in E.
    destruct (IH q1 Hr1) as [q' [new [Hrun [Hw [Hok Hfl]]]]].
    destruct (fired_new_write _ _ _ E) as [new1 [Hw1 Hok1]].
    exists q', (new ++ new1). split; [exact Hrun|].
    repeat split.
    + rewrite Hw, Hw1. cbn [set_time writes]. now rewrite app_assoc.
    + apply Forall_app. now split.
    + eapply floor_only_trans; [|exact Hfl].
      apply (fired_floor_only _ _ _ E).
Qed.

Lemma wall_writes_vertical_witness :
  exists q' new,
    run globals [1.5; 1.6; 1.7; 1.8; 20.5] initial = Some q' /\
    writes q' = new ++ writes initial /\
    Forall (wall_write_ok globals) new /\
    floor_only globals (wallHandler initial) (wallHandler q').
Proof.
  apply (wall_writes_vertical globals [1.5; 1.6; 1.7; 1.8; 20.5] initial).
  reflexivity.
Defined.

Lemma even_of_nat (n : nat) : Z.even (Z.of_nat n) = Nat.even n.
Proof.
  induction n as [|n IH]; [reflexivity|].
  rewrite Nat2Z.inj_succ, Z.even_succ, <- Z.negb_even, IH.
  now rewrite Nat.even_succ, <- Nat.negb_even.
Qed.

(** The velocity of the n-th kick, counting from 0. *)
Lemma kick_velocity_nth (g : Globals) (n : nat) :
  kick_velocity g (Z.of_nat n)
  = vec 0 0 (if Nat.even n then oscillation_amplitude g
             else - oscillation_amplitude g).
Proof.
  unfold kick_velocity, pow_m1. rewrite even_of_nat.
  destruct (Nat.even n); [now rewrite mul_one_r|now rewrite mul_m1_r].
Qed.

Lemma fired_kicks (g : Globals) (q q' : Quantum) :
  fired g q q' ->
  (kick_count q' = kick_count q /\
   kick_interval_counter q' = kick_interval_counter q /\
   kicks (trace q') = kicks (trace q)) \/
  (kick_count q' = int_wrap (kick_count q + 1) /\
   kick_interval_counter q' = kick_interval_counter q + pulse_interval g /\
   kicks (trace q') = kicks (trace q) ++ [kick_velocity g (kick_count q)]).
Proof.
  unfold trace.
  intros [h Ef Eh|h Ef Ek Eh|h Ef Ek Es Eh|Ef Ek Es];
    cbn [with_boundaries with_walls writes kick_count
         kick_interval_counter rev];
    rewrite ?kicks_app; cbn [kicks]; rewrite ?app_nil_r; auto.
Qed.

(** Along a run started after [n0] kicks, the log of kicks grows by the
    velocities of the kicks numbered [n0], [n0 + 1], ..., the counter
    follows their number in [int], and the threshold is advanced by one
    [pulse_interval] for each of them. *)
Lemma run_kicks (g : Globals) (ts : list float) (q q' : Quantum) (n0 : nat) :
  run g ts q = Some q' ->
  kick_count q = int_wrap (Z.of_nat n0) ->
  exists m : nat,
    (m <= length ts)%nat /\
    kick_count q' = int_wrap (Z.of_nat (n0 + m)) /\
    kicks (trace q')
    = kicks (trace q)
      ++ map (fun i => kick_velocity g (Z.of_nat i)) (seq n0 m) /\
    kick_interval_counter q'
    = threshold_after g (kick_interval_counter q) m.
Proof.
  revert q n0. induction ts as [|t ts IH]; intros q n0 H Hn0.
  - injection H as <-. exists 0%nat. cbn [seq map length].
    rewrite app_nil_r, Nat.add_0_r. now repeat split.
  - cbn [run] in H.
    destruct (actionsAfterTimeStep g (set_time t q)) as [q1|] eqn:E;
      [|discriminate].
    apply actions_fired, fired_kicks in E.
    change (kick_count (set_time t q)) with (kick_count q) in E.
    change (kick_interval_counter (set_time t q))
      with (kick_interval_counter q) in E.
    change (trace (set_time t q)) with (trace q) in E.
    cbn [length].
    destruct E as [[Ec [Et Ek]]|[Ec [Et Ek]]].
    + destruct (IH q1 n0 H) as [m [Hm [Hc [Hk Hi]]]];
        [now rewrite Ec|].
      exists m. rewrite Hc, Hk, Hi, Ek, Et. split; [lia|now repeat split].
    + destruct (IH q1 (S n0) H) as [m [Hm [Hc [Hk Hi]]]].
      { rewrite Ec, Hn0, int_wrap_succ. f_equal. lia. }
      exists (S m). rewrite Hc, Hk, Hi, Ek, Et, Hn0, kick_velocity_wrap.
      split; [lia|]. split; [f_equal; lia|]. split.
      * rewrite <- app_assoc. reflexivity.
      * unfold threshold_after. now rewrite Nat.iter_succ_r.
Qed.

Lemma nth_kick (g : Globals) (m n : nat) (v : Vec3D) :
  nth_error (map (fun i => kick_velocity g (Z.of_nat i)) (seq 0 m)) n
  = Some v ->
  v = kick_velocity g (Z.of_nat n).
Proof.
  intros Hn. rewrite nth_error_map in Hn.
  destruct (nth_error (seq 0 m) n) as [i|] eqn:Ei; [|discriminate].
  assert (Hlt : (n < length (seq 0 m))%nat).
  { apply nth_error_Some. rewrite Ei. discriminate. }
  rewrite length_seq in Hlt.
  apply nth_error_nth with (d := 0%nat) in Ei.
  rewrite seq_nth in Ei by exact Hlt. cbn [Nat.add] in Ei. subst i.
  cbn [option_map] in Hn. now injection Hn as <-.
Qed.

Lemma fired_log_coherent
  (g : Globals) (w0 : option Vec3D) (f0 : option float) (q q' : Quantum) :
  fired g q q' -> log_coherent w0 f0 q -> log_coherent w0 f0 q'.
Proof.
  unfold log_coherent.
  intros [h Ef Eh|h Ef Ek Eh|h Ef Ek Es Eh|Ef Ek Es] [Hw Hf];
    cbn [with_boundaries with_walls writes wallHandler boundaryHandler
         last_wall_write last_flow_write];
    try (now split);
    apply onLastObject_inv in Eh as [h' [o [_ ->]]];
    rewrite lastObject_last; now split.
Qed.

Lemma run_log_coherent
  (g : Globals) (w0 : option Vec3D) (f0 : option float)
  (ts : list float) (q q' : Quantum) :
  run g ts q = Some q' -> log_coherent w0 f0 q -> log_coherent w0 f0 q'.
Proof.
  revert q. induction ts as [|t ts IH]; intros q H Hq.
  - now injection H as <-.
  - cbn [run] in H.
    destruct (actionsAfterTimeStep g (set_time t q)) as [q1|] eqn:E;
      [|discriminate].
    apply actions_fired in E.
    exact (IH q1 H (fired_log_coherent g w0 f0 _ _ E Hq)).
Qed.

(** What the next call does to the statics and to the log of kicks:
    it kicks exactly when the flow edge is not taken and the time is in
    the kick window. *)
Lemma next_call (g : Globals) (q : Quantum) :
  handlers_ready q = true ->
  exists q',
    actionsAfterTimeStep g q = Some q' /\
    if negb (flow_edge g q) && kick_window g q
    then
      kick_count q' = int_wrap (kick_count q + 1) /\
      kick_interval_counter q'
      = kick_interval_counter q + pulse_interval g /\
      kicks (trace q') = kicks (trace q) ++ [kick_velocity g (kick_count q)] /\
      option_map velocity (lastObject (wallHandler q'))
      = Some (kick_velocity g (kick_count q)) /\
      removelast (wallHandler q') = removelast (wallHandler q)
    else
      kick_count q' = kick_count q /\
      kick_interval_counter q' = kick_interval_counter q /\
      kicks (trace q') = kicks (trace q).
Proof.
  intros Hr. destruct (actions_total g q Hr) as [q' [E _]].
  exists q'. split; [exact E|]. apply actions_fired in E.
  unfold trace.
  destruct E as [h Ef Eh|h Ef Ek Eh|h Ef Ek Es Eh|Ef Ek Es];
    rewrite Ef, ?Ek; cbn [negb andb];
    cbn [with_boundaries with_walls writes kick_count
         kick_interval_counter wallHandler rev];
    rewrite ?kicks_app; cbn [kicks]; rewrite ?app_nil_r;
    try (now repeat split).
  apply onLastObject_inv in Eh as [h' [o [-> ->]]].
  rewrite lastObject_last, !removelast_last. now repeat split.
Qed.

(** C5.  Counting kicks from 0 in a run that starts with
    [kick_count = 0], the n-th kick writes the velocity
    (0, 0, amplitude * pow(-1, n)) to the floor wall, that is
    +amplitude for even n and -amplitude for odd n; the amplitude is
    the same global for every kick.  After any such run: the log holds
    the kicks with these velocities; the floor moves with the most
    recent write; and a next call that kicks (time in the window, flow
    edge not taken) sets the floor's velocity to the one of the next
    number, leaves the other walls alone and logs it.  [kick_count] is
    the number of kicks in [int]; its wrap-around keeps the parity. *)
Theorem kick_signs_alternate (g : Globals) (ts : list float) (q : Quantum) :
  handlers_ready q = true ->
  kick_count q = 0%Z ->
  writes q = [] ->
  exists q',
    run g ts q = Some q' /\
    kick_count q' = int_wrap (Z.of_nat (length (kicks (trace q')))) /\
    (forall (n : nat) (v : Vec3D),
       nth_error (kicks (trace q')) n = Some v ->
       v = vec 0 0 (oscillation_amplitude g * pow_m1 (Z.of_nat n)) /\
       Vec3D.Z v = if Nat.even n then oscillation_amplitude g
                   else - oscillation_amplitude g) /\
    option_map velocity (lastObject (wallHandler q'))
    = match last_wall_write (writes q') with
      | Some v => Some v
      | None => option_map velocity (lastObject (wallHandler q))
      end /\
    forall t : float,
      flow_edge g (set_time t q') = false ->
      kick_window g (set_time t q') = true ->
      exists q'',
        actionsAfterTimeStep g (set_time t q') = Some q'' /\
        option_map velocity (lastObject (wallHandler q''))
        = Some (vec 0 0
                  (if Nat.even (length (kicks (trace q')))
                   then oscillation_amplitude g
                   else - oscillation_amplitude g)) /\
        removelast (wallHandler q'') = removelast (wallHandler q') /\
        kicks (trace q'')
        = kicks (trace q')
          ++ [vec 0 0
                (if Nat.even (length (kicks (trace q')))
                 then oscillation_amplitude g
                 else - oscillation_amplitude g)].
Proof.
  intros Hr Hk Hw.
  destruct (run_total g ts q Hr) as [q' [Hrun Hr']].
  exists q'. split; [exact Hrun|].
  destruct (run_kicks g ts q q' 0 Hrun Hk) as [m [_ [Hc [Hks _]]]].
  unfold trace in Hks at 2. rewrite Hw in Hks. cbn [rev kicks app] in Hks.
  assert (Hlen : length (kicks (trace q')) = m)
    by (rewrite Hks, length_map, length_seq; reflexivity).
  rewrite Hlen. cbn [Nat.add] in Hc. split; [exact Hc|]. split; [|split].
  - intros n v Hn. rewrite Hks in Hn. apply nth_kick in Hn. subst v.
    split; [reflexivity|]. now rewrite kick_velocity_nth.
  - destruct (run_log_coherent g
                (option_map velocity (lastObject (wallHandler q)))
                (option_map volumeFlowRate (lastObject (boundaryHandler q)))
                ts q q' Hrun) as [Hcoh _]; [|exact Hcoh].
    unfold log_coherent. rewrite Hw. now split.
  - intros t Ef Ek.
    destruct (next_call g (set_time t q') Hr') as [q'' [E Hn]].
    rewrite Ef, Ek in Hn. cbn [negb andb] in Hn.
    destruct Hn as [_ [_ [Hks' [Hv Hrl]]]].
    change (kick_count (set_time t q')) with (kick_count q') in Hks', Hv.
    change (trace (set_time t q')) with (trace q') in Hks'.
    change (wallHandler (set_time t q')) with (wallHandler q') in Hrl.
    rewrite Hc, kick_velocity_wrap, kick_velocity_nth in Hks', Hv.
    exists q''. now repeat split.
Qed.

Lemma kick_signs_alternate_witness :
  exists q',
    run globals [1.5; 1.6; 1.7; 1.8; 2.1; 20.5] initial = Some q' /\
    kick_count q' = int_wrap (Z.of_nat (length (kicks (trace q')))) /\
    (forall (n : nat) (v : Vec3D),
       nth_error (kicks (trace q')) n = Some v ->
       v = vec 0 0 (oscillation_amplitude globals * pow_m1 (Z.of_nat n)) /\
       Vec3D.Z v = if Nat.even n then oscillation_amplitude globals
                   else - oscillation_amplitude globals) /\
    option_map velocity (lastObject (wallHandler q'))
    = match last_wall_write (writes q') with
      | Some v => Some v
      | None => option_map velocity (lastObject (wallHandler initial))
      end /\
    forall t : float,
      flow_edge globals (set_time t q') = false ->
      kick_window globals (set_time t q') = true ->
      exists q'',
        actionsAfterTimeStep globals (set_time t q') = Some q'' /\
        option_map velocity (lastObject (wallHandler q''))
        = Some (vec 0 0
                  (if Nat.even (length (kicks (trace q')))
                   then oscillation_amplitude globals
                   else - oscillation_amplitude globals)) /\
        removelast (wallHandler q'') = removelast (wallHandler q') /\
        kicks (trace q'')
        = kicks (trace q')
          ++ [vec 0 0
                (if Nat.even (length (kicks (trace q')))
                 then oscillation_amplitude globals
                 else - oscillation_amplitude globals)].
Proof.
  apply (kick_signs_alternate globals [1.5; 1.6; 1.7; 1.8; 2.1; 20.5] initial);
    reflexivity.
Defined.

(** ** The threshold *)

Lemma pow_digits (n : positive) :
  (2 ^ (Zpos (digits2_pos n) - 1) <= Zpos n)%Z.
Proof.
  induction n as [n IH|n IH|]; cbn [digits2_pos];
    rewrite ?Pos2Z.inj_succ; try (simpl; lia).
  - replace (Z.succ (Z.pos (digits2_pos n)) - 1)%Z
      with (Z.succ (Z.pos (digits2_pos n) - 1)) by lia.
    rewrite Z.pow_succ_r by lia. lia.
  - replace (Z.succ (Z.pos (digits2_pos n)) - 1)%Z
      with (Z.succ (Z.pos (digits2_pos n) - 1)) by lia.
    rewrite Z.pow_succ_r by lia. lia.
Qed.

Lemma digits_bound (n : positive) :
  (Zpos n < 2 ^ 53)%Z -> (digits n <= 53)%nat.
Proof.
  intros Hn. unfold digits.
  destruct (Z_le_gt_dec (Zpos (digits2_pos n)) 53) as [H|H]; [lia|].
  pose proof (pow_digits n) as Hp.
  assert (Hm : (2 ^ 53 <= 2 ^ (Zpos (digits2_pos n) - 1))%Z)
    by (apply Z.pow_le_mono_r; lia).
  lia.
Qed.

(** With pulse interval 0.25 and start 1.5 no addition of the schedule
    rounds: after [n] kicks the threshold is the double of value
    (6 + n) / 4. *)
Lemma threshold_quarters (g : Globals) (n : nat) :
  pulse_interval g = 0.25 ->
  (Z.of_nat n + 6 < 2 ^ 53)%Z ->
  Prim2SF (threshold_after g 1.5 n) = quarters (Z.to_pos (Z.of_nat n + 6)).
Proof.
  intros Hp. induction n as [|n IH]; intros Hn.
  - vm_compute. reflexivity.
  - change (threshold_after g 1.5 (S n))
      with (threshold_after g 1.5 n + pulse_interval g).
    rewrite Hp, add_spec, IH by lia.
    change (Prim2SF 0.25) with SF_quarter.
    replace (Z.to_pos (Z.of_nat (S n) + 6))
      with (Z.to_pos (Z.of_nat n + 6) + 1)%positive by lia.
    apply SFadd_quarter, digits_bound. lia.
Qed.

(** C6 as stated fails where double addition rounds: with pulse
    interval 0.1, after two kicks the threshold is 1.5 + 0.1 + 0.1
    = 1.7000000000000002, which is neither the double 1.5 + 2 * 0.1
    = 1.7 nor, as a real number, the value of 1.5 plus twice the
    value of 0.1. *)
Lemma threshold_rounds :
  exists q' v v0 p,
    run tenth_pulse [1.55; 1.65] initial = Some q' /\
    kick_count q' = 2%Z /\
    kick_interval_counter q' = 1.7000000000000002 /\
    1.5 + 2 * pulse_interval tenth_pulse = 1.7 /\
    (kick_interval_counter q' =? 1.5 + 2 * pulse_interval tenth_pulse)
    = false /\
    F2Q (kick_interval_counter q') = Some v /\
    F2Q 1.5 = Some v0 /\
    F2Q (pulse_interval tenth_pulse) = Some p /\
    Qeq_bool v (v0 + inject_Z (kick_count q') * p) = false.
Proof.
  eexists. eexists. eexists. eexists.
  split; [vm_compute; reflexivity|].
  split; [reflexivity|]. split; [reflexivity|]. split; [reflexivity|].
  split; [reflexivity|]. split; [vm_compute; reflexivity|].
  split; [vm_compute; reflexivity|]. split; [vm_compute; reflexivity|].
  vm_compute. reflexivity.
Qed.

(** C6, as the code has it.  In a run of fewer than [INT_MAX] steps
    started with [kick_count = 0], after every step: [kick_count] is the
    number of kicks fired, and [kick_interval_counter] is the start
    threshold with [pulse_interval] added once per kick, in double
    arithmetic.  A next call that kicks adds exactly one
    [pulse_interval] and counts exactly one up; any other call leaves
    both alone.  With the shipped pulse interval 0.25 and start 1.5 no
    addition rounds, and the threshold is exactly the real number
    start + kick_count * pulse_interval. *)
Theorem threshold_tracks_count (g : Globals) (ts : list float) (q : Quantum) :
  handlers_ready q = true ->
  kick_count q = 0%Z ->
  writes q = [] ->
  (Z.of_nat (length ts) < INT_MAX)%Z ->
  exists q',
    run g ts q = Some q' /\
    kick_count q' = Z.of_nat (length (kicks (trace q'))) /\
    (0 <= kick_count q' <= Z.of_nat (length ts))%Z /\
    kick_interval_counter q'
    = threshold_after g (kick_interval_counter q) (Z.to_nat (kick_count q')) /\
    (forall t : float,
       exists q'',
         actionsAfterTimeStep g (set_time t q') = Some q'' /\
         if negb (flow_edge g (set_time t q')) && kick_window g (set_time t q')
         then
           kick_count q'' = (kick_count q' + 1)%Z /\
           kick_interval_counter q''
           = kick_interval_counter q' + pulse_interval g /\
           length (kicks (trace q'')) = S (length (kicks (trace q')))
         else
           kick_count q'' = kick_count q' /\
           kick_interval_counter q'' = kick_interval_counter q' /\
           kicks (trace q'') = kicks (trace q')) /\
    (pulse_interval g = 0.25 ->
     kick_interval_counter q = 1.5 ->
     exists v v0 p : Q,
       F2Q (kick_interval_counter q') = Some v /\
       F2Q (kick_interval_counter q) = Some v0 /\
       F2Q (pulse_interval g) = Some p /\
       (v == v0 + inject_Z (kick_count q') * p)%Q).
Proof.
  intros Hr Hk Hw Hlen.
  destruct (run_total g ts q Hr) as [q' [Hrun Hr']].
  exists q'. split; [exact Hrun|].
  destruct (run_kicks g ts q q' 0 Hrun Hk) as [m [Hm [Hc [Hks Hi]]]].
  unfold trace in Hks at 2. rewrite Hw in Hks. cbn [rev kicks app] in Hks.
  assert (Hl : length (kicks (trace q')) = m)
    by (rewrite Hks, length_map, length_seq; reflexivity).
  cbn [Nat.add] in Hc. unfold INT_MAX in Hlen.
  rewrite int_wrap_id in Hc by (unfold INT_MIN, INT_MAX; lia).
  rewrite Hl, Hc, Nat2Z.id.
  split; [reflexivity|]. split; [lia|]. split; [exact Hi|]. split.
  - intros t. destruct (next_call g (set_time t q') Hr') as [q'' [E Hn]].
    exists q''. split; [exact E|].
    change (kick_count (set_time t q')) with (kick_count q') in Hn.
    change (kick_interval_counter (set_time t q'))
      with (kick_interval_counter q') in Hn.
    change (trace (set_time t q')) with (trace q') in Hn.
    destruct (negb (flow_edge g (set_time t q'))
              && kick_window g (set_time t q')).
    + destruct Hn as [Hc' [Hi' [Hks' _]]]. rewrite Hc', Hi', Hks', Hc.
      rewrite int_wrap_id by (unfold INT_MIN, INT_MAX; lia).
      rewrite length_app, Hl. cbn [length]. repeat split. lia.
    + destruct Hn as [Hc' [Hi' Hks']]. rewrite Hc', Hi', Hks', Hc.
      now repeat split.
  - intros Hp Ht. rewrite Ht in Hi.
    pose proof (threshold_quarters g m Hp) as Hq.
    assert (Hb : (2 ^ 32 < 2 ^ 53)%Z) by (apply Z.pow_lt_mono_r; lia).
    change (2 ^ 32)%Z with 4294967296%Z in Hb.
    specialize (Hq ltac:(lia)).
    destruct (SF2Q_quarters (Z.to_pos (Z.of_nat m + 6))) as [v [Hv Hv']].
    { apply digits_bound. lia. }
    assert (E0 : exists v0, F2Q 1.5 = Some v0 /\ (v0 == 3 # 2)%Q)
      by (eexists; split; [reflexivity|vm_compute; reflexivity]).
    assert (Ep : exists p, F2Q 0.25 = Some p /\ (p == 1 # 4)%Q)
      by (eexists; split; [reflexivity|vm_compute; reflexivity]).
    destruct E0 as [v0 [E0 Hv0]], Ep as [p [Ep Hp0]].
    exists v, v0, p. rewrite Hi, Ht, Hp.
    split; [unfold F2Q; now rewrite Hq|].
    split; [exact E0|]. split; [exact Ep|].
    rewrite Hv', Hv0, Hp0, Z2Pos.id by lia.
    rewrite inject_Z_plus. field.
Qed.

Lemma threshold_tracks_count_witness :
  exists q',
    run globals [1.5; 1.6; 1.7; 1.8; 2.1; 20.5] initial = Some q' /\
    kick_count q' = Z.of_nat (length (kicks (trace q'))) /\
    (0 <= kick_count q' <= 6)%Z /\
    kick_interval_counter q'
    = threshold_after globals 1.5 (Z.to_nat (kick_count q')) /\
    (forall t : float,
       exists q'',
         actionsAfterTimeStep globals (set_time t q') = Some q'' /\
         if negb (flow_edge globals (set_time t q'))
            && kick_window globals (set_time t q')
         then
           kick_count q'' = (kick_count q' + 1)%Z /\
           kick_interval_counter q''
           = kick_interval_counter q' + pulse_interval globals /\
           length (kicks (trace q'')) = S (length (kicks (trace q')))
         else
           kick_count q'' = kick_count q' /\
           kick_interval_counter q'' = kick_interval_counter q' /\
           kicks (trace q'') = kicks (trace q')) /\
    (pulse_interval globals = 0.25 ->
     kick_interval_counter initial = 1.5 ->
     exists v v0 p : Q,
       F2Q (kick_interval_counter q') = Some v /\
       F2Q (kick_interval_counter initial) = Some v0 /\
       F2Q (pulse_interval globals) = Some p /\
       (v == v0 + inject_Z (kick_count q') * p)%Q).
Proof.
  apply (threshold_tracks_count globals [1.5; 1.6; 1.7; 1.8; 2.1; 20.5]
           initial); reflexivity.
Defined.

(** ** The flow shutoff *)

Lemma fired_no_edge (g : Globals) (q q' : Quantum) :
  fired g q q' ->
  flow_edge g q = false ->
  boundaryHandler q' = boundaryHandler q /\
  filter is_flow_write (writes q') = filter is_flow_write (writes q).
Proof.
  intros [h Ef Eh|h Ef Ek Eh|h Ef Ek Es Eh|Ef Ek Es] Hf;
    try congruence; now split.
Qed.

Lemma fired_edge (g : Globals) (q q' : Quantum) :
  fired g q q' ->
  flow_edge g q = true ->
  onLastObject (setVolumeFlowRate 0) (boundaryHandler q)
    = Some (boundaryHandler q') /\
  writes q' = (time q, FlowRateWrite 0) :: writes q.
Proof.
  intros [h Ef Eh|h Ef Ek Eh|h Ef Ek Es Eh|Ef Ek Es] Hf;
    try congruence; now split.
Qed.

Lemma run_no_edge (g : Globals) (ts : list float) (q q' : Quantum) :
  Forall (fun t => (t <? stop_flow g) = false) ts ->
  run g ts q = Some q' ->
  boundaryHandler q' = boundaryHandler q /\
  filter is_flow_write (writes q') = filter is_flow_write (writes q).
Proof.
  revert q. induction ts as [|t ts IH]; intros q Hall H.
  - injection H as <-. now split.
  - cbn [run] in H.
    destruct (actionsAfterTimeStep g (set_time t q)) as [q1|] eqn:E;
      [|discriminate].
    inversion Hall as [|? ? Ht Hts]; subst.
    apply actions_fired, fired_no_edge in E.
    + destruct E as [Eb Ew], (IH q1 Hts H) as [Hb Hw].
      rewrite Hb, Hw, Eb, Ew. now split.
    + unfold flow_edge. cbn [set_time time]. now rewrite Ht.
Qed.

Lemma advancing_above (b t : float) (ts : list float) :
  (b <? t) = true -> advancing t ts = true ->
  Forall (fun t' => (t' <? b) = false) ts.
Proof.
  revert t. induction ts as [|t' ts IH]; intros t Hb Ha; [constructor|].
  cbn [advancing] in Ha. apply andb_prop in Ha as [Hle Ha].
  pose proof (ltb_leb_trans b t t' Hb Hle) as Hb'.
  constructor; [now apply ltb_asym|now apply (IH t')].
Qed.

Lemma clock_above (b t dt : float) (n : nat) :
  (b <? t + dt) = true -> advancing t (clock n t dt) = true ->
  Forall (fun t' => (t' <? b) = false) (clock n t dt).
Proof.
  destruct n as [|n]; [constructor|].
  cbn [clock advancing]. intros Hb Ha.
  apply andb_prop in Ha as [_ Ha].
  constructor; [now apply ltb_asym|now apply (advancing_above b (t + dt))].
Qed.

(** C2, as the code has it.  On a fixed-step clock that does not go
    back, the flow rate is written at most once, to 0, on the step whose
    time satisfies t < stop_flow < t + dt with both comparisons strict;
    from then on the last boundary keeps flow rate 0, and no other step
    touches the boundary handler.  When no step satisfies the strict
    test, the flow rate is never written. *)
Theorem flow_shutoff_edge (g : Globals) (n : nat) (q : Quantum) :
  handlers_ready q = true ->
  advancing (time q) (clock n (time q) (timeStep q)) = true ->
  exists q',
    solve g n q = Some q' /\
    ((Forall (fun t => (t <? stop_flow g)
                       && (stop_flow g <? t + timeStep q) = false)
        (clock n (time q) (timeStep q)) /\
      boundaryHandler q' = boundaryHandler q /\
      filter is_flow_write (writes q') = filter is_flow_write (writes q))
     \/
     (exists t,
        In t (clock n (time q) (timeStep q)) /\
        (t <? stop_flow g) = true /\
        (stop_flow g <? t + timeStep q) = true /\
        onLastObject (setVolumeFlowRate 0) (boundaryHandler q)
          = Some (boundaryHandler q') /\
        option_map volumeFlowRate (lastObject (boundaryHandler q'))
        = Some 0 /\
        filter is_flow_write (writes q')
        = (t, FlowRateWrite 0) :: filter is_flow_write (writes q))).
Proof.
  revert q. induction n as [|n IH]; intros q Hr Ha.
  - exists q. split; [reflexivity|]. left. now repeat split.
  - cbn [solve clock advancing] in *.
    apply andb_prop in Ha as [_ Ha].
    set (t1 := time q + timeStep q) in *.
    destruct (actions_total g (set_time t1 q) Hr) as [q1 [E Hr1]].
    rewrite E. pose proof (actions_fired _ _ _ E) as F.
    destruct (fired_clock _ _ _ F) as [Ht Hdt].
    cbn [set_time time timeStep] in Ht, Hdt.
    destruct (flow_edge g (set_time t1 q)) eqn:Ef.
    + destruct (fired_edge _ _ _ F Ef) as [Eb Ew].
      cbn [set_time boundaryHandler writes time] in Eb, Ew.
      unfold flow_edge in Ef. cbn [set_time time timeStep] in Ef.
      apply andb_prop in Ef as [Ef1 Ef2].
      destruct (run_total g (clock n t1 (timeStep q)) q1 Hr1) as [q' [Hrun _]].
      exists q'. rewrite solve_run, Ht, Hdt. split; [exact Hrun|].
      right. exists t1.
      destruct (run_no_edge g _ q1 q' (clock_above _ _ _ n Ef2 Ha) Hrun)
        as [Hb Hw].
      split; [now left|]. split; [exact Ef1|]. split; [exact Ef2|].
      rewrite Hb, Hw, Ew. split; [exact Eb|]. split; [|reflexivity].
      apply onLastObject_inv in Eb as [h' [o [_ ->]]].
      now rewrite lastObject_last.
    + destruct (fired_no_edge _ _ _ F Ef) as [Eb Ew].
      cbn [set_time boundaryHandler writes] in Eb, Ew.
      unfold flow_edge in Ef. cbn [set_time time timeStep] in Ef.
      destruct (IH q1 Hr1) as [q' [Hs Hq']].
      { now rewrite Ht, Hdt. }
      exists q'. split; [exact Hs|].
      rewrite Ht, Hdt, Eb, Ew in Hq'.
      destruct Hq' as [[Hall [Hb Hw]]|[t [Hin Hrest]]].
      * left. split; [now constructor|now split].
      * right. exists t. split; [now right|exact Hrest].
Qed.

Lemma flow_shutoff_edge_witness :
  exists q',
    solve globals 6 (with_timeStep 0.3 initial) = Some q' /\
    ((Forall (fun t => (t <? stop_flow globals)
                       && (stop_flow globals <? t + 0.3) = false)
        (clock 6 0 0.3) /\
      boundaryHandler q' = boundaryHandler (with_timeStep 0.3 initial) /\
      filter is_flow_write (writes q') = [])
     \/
     (exists t,
        In t (clock 6 0 0.3) /\
        (t <? stop_flow globals) = true /\
        (stop_flow globals <? t + 0.3) = true /\
        onLastObject (setVolumeFlowRate 0)
          (boundaryHandler (with_timeStep 0.3 initial))
          = Some (boundaryHandler q') /\
        option_map volumeFlowRate (lastObject (boundaryHandler q'))
        = Some 0 /\
        filter is_flow_write (writes q') = [(t, FlowRateWrite 0)])).
Proof.
  apply (flow_shutoff_edge globals 6 (with_timeStep 0.3 initial));
    reflexivity.
Defined.

(** C2 as stated fails: stepping by 0.25, the step at t = 0.75 has
    t < stop_flow <= t + dt and the step at t = 1 has
    t <= stop_flow < t + dt, yet neither of them nor any other step up
    to t = 25 writes the flow rate, which stays 1. *)
Lemma flow_edge_skipped :
  exists q',
    solve globals 100 initial_quarter_step = Some q' /\
    time q' = 25 /\
    firstn 4 (clock 100 0 0.25) = [0.25; 0.5; 0.75; 1] /\
    (0.75 <? stop_flow globals) = true /\
    (stop_flow globals <=? 0.75 + timeStep initial_quarter_step) = true /\
    (1 <=? stop_flow globals) = true /\
    (stop_flow globals <? 1 + timeStep initial_quarter_step) = true /\
    option_map volumeFlowRate (lastObject (boundaryHandler q')) = Some 1 /\
    filter is_flow_write (writes q') = [].
Proof.
  eexists. split; [vm_compute; reflexivity|].
  repeat split.
Qed.

(** ** Missed kicks *)

Lemma fired_no_window (g : Globals) (q q' : Quantum) :
  fired g q q' ->
  kick_window g q = false ->
  kick_count q' = kick_count q /\
  kick_interval_counter q' = kick_interval_counter q /\
  kicks (writes q') = kicks (writes q).
Proof.
  intros [h Ef Eh|h Ef Ek Eh|h Ef Ek Es Eh|Ef Ek Es] Hf;
    try congruence; now repeat split.
Qed.

(** C4, as the code has it.  A kick fires only on a step whose time
    lies strictly inside (kick_interval_counter, kick_interval_counter
    + pulse_interval): a call at any other time changes neither
    [kick_count] nor [kick_interval_counter] and writes no kick
    velocity.  A missed kick is not made up: once a step's time is not
    below the end of that window, no later step of a clock that does
    not go back fires a kick, [kick_count] and [kick_interval_counter]
    keep their values and no kick velocity is written. *)
Theorem missed_kick_is_lost (g : Globals) (ts : list float) (q : Quantum) :
  handlers_ready q = true ->
  (forall t : float,
     exists q1,
       actionsAfterTimeStep g (set_time t q) = Some q1 /\
       ((kick_interval_counter q <? t)
        && (t <? kick_interval_counter q + pulse_interval g) = false ->
        kick_count q1 = kick_count q /\
        kick_interval_counter q1 = kick_interval_counter q /\
        kicks (writes q1) = kicks (writes q)) /\
       (kick_count q1 <> kick_count q \/
        kick_interval_counter q1 <> kick_interval_counter q \/
        kicks (writes q1) <> kicks (writes q) ->
        (kick_interval_counter q <? t) = true /\
        (t <? kick_interval_counter q + pulse_interval g) = true)) /\
  ((time q <? kick_interval_counter q + pulse_interval g) = false ->
   advancing (time q) ts = true ->
   exists q',
     run g ts q = Some q' /\
     kick_count q' = kick_count q /\
     kick_interval_counter q' = kick_interval_counter q /\
     kicks (writes q') = kicks (writes q)).
Proof.
  intros Hr. split.
  - intros t. destruct (actions_total g (set_time t q) Hr) as [q1 [E _]].
    exists q1. split; [exact E|].
    apply actions_fired in E.
    assert (Hno : (kick_interval_counter q <? t)
                  && (t <? kick_interval_counter q + pulse_interval g) = false ->
                  kick_count q1 = kick_count q /\
                  kick_interval_counter q1 = kick_interval_counter q /\
                  kicks (writes q1) = kicks (writes q)).
    { intros Hw. exact (fired_no_window _ _ _ E Hw). }
    split; [exact Hno|].
    intros Hch.
    destruct ((kick_interval_counter q <? t)
              && (t <? kick_interval_counter q + pulse_interval g)) eqn:Ew.
    + now apply andb_prop in Ew.
    + destruct (Hno eq_refl) as [H1 [H2 H3]].
      destruct Hch as [H|[H|H]]; contradiction.
  - revert q Hr. induction ts as [|t ts IH]; intros q Hr Hlate Ha.
    + exists q. now repeat split.
    + cbn [run advancing] in *. apply andb_prop in Ha as [Hle Ha].
      destruct (actions_total g (set_time t q) Hr) as [q1 [E Hr1]].
      rewrite E. pose proof (actions_fired _ _ _ E) as F.
      destruct (fired_clock _ _ _ F) as [Ht _]. cbn [set_time time] in Ht.
      assert (Hw : kick_window g (set_time t q) = false).
      { unfold kick_window. cbn [set_time time kick_interval_counter].
        rewrite (not_ltb_later _ t _ Hlate Hle). apply andb_false_r. }
      destruct (fired_no_window _ _ _ F Hw) as [Ec [Ek Ew]].
      cbn [set_time kick_count kick_interval_counter writes] in Ec, Ek, Ew.
      destruct (IH q1 Hr1) as [q' [Hrun [Hc [Hk Hws]]]].
      * rewrite Ht, Ek. exact (not_ltb_later _ t _ Hlate Hle).
      * now rewrite Ht.
      * exists q'. split; [exact Hrun|]. rewrite Hc, Hk, Hws.
        now repeat split.
Qed.

Lemma missed_kick_is_lost_witness :
  (exists q1,
     actionsAfterTimeStep globals (set_time 1.5 (set_time 2 initial))
     = Some q1 /\
     kick_count q1 = 0%Z /\
     kick_interval_counter q1 = 1.5 /\
     kicks (writes q1) = []) /\
  exists q',
    run globals [2.5; 3; 21; 25] (set_time 2 initial) = Some q' /\
    kick_count q' = 0%Z /\
    kick_interval_counter q' = 1.5 /\
    kicks (writes q') = [].
Proof.
  destruct (missed_kick_is_lost globals [2.5; 3; 21; 25] (set_time 2 initial)
              eq_refl) as [Hstep Hrun].
  split.
  - destruct (Hstep 1.5) as [q1 [E [Hno _]]].
    exists q1. split; [exact E|]. exact (Hno eq_refl).
  - exact (Hrun eq_refl eq_refl).
Defined.

(** C4 as stated fails: stepping by 0.5, no step time lies strictly
    between 1.5 and 1.75 (the times run 0.5, 1, 1.5, 2, ...), and the
    missed kick is not made up later: up to t = 25 no kick fires at
    all. *)
Lemma missed_kick_never_fires :
  exists q',
    solve globals 50 initial_half_step = Some q' /\
    time q' = 25 /\
    firstn 4 (clock 50 0 0.5) = [0.5; 1; 1.5; 2] /\
    Forall (fun t => (1.5 <? t) && (t <? 1.5 + pulse_interval globals) = false)
      (clock 50 0 0.5) /\
    kick_count q' = 0%Z /\
    kick_interval_counter q' = 1.5 /\
    kicks (writes q') = [].
Proof.
  eexists. split; [vm_compute; reflexivity|].
  split; [reflexivity|]. split; [reflexivity|].
  split; [|now repeat split].
  cbn [clock]. repeat (constructor; [reflexivity|]). constructor.
Qed.

(** ** The scene *)

(** C7 as stated fails: for the box of [main] the tracer's height is
    2 * big_particle_radius = 0.16, not mid.Z + 2 * big_particle_radius
    = 1.66. *)
Lemma tracer_not_at_midpoint :
  particleHandler initial = [p1 globals problem] /\
  p_position (p1 globals problem) = vec 0.5 0.5 0.16 /\
  Vec3D.Z (midpoint problem) + 2 * big_particle_radius globals = 1.66 /\
  p_position (p1 globals problem)
  <> vec (Vec3D.X (midpoint problem)) (Vec3D.Y (midpoint problem))
         (Vec3D.Z (midpoint problem) + 2 * big_particle_radius globals).
Proof.
  repeat split.
  intros H.
  apply (f_equal (fun v => Leibniz.eqb (Vec3D.Z v) 0.16)) in H.
  vm_compute in H. discriminate H.
Qed.

(** C7, as the code has it.  [setupInitialConditions] adds exactly one
    particle, the tracer: radius [big_particle_radius], zero velocity,
    and position (mid.X, mid.Y, 2 * big_particle_radius), where mid is
    the midpoint of the bounding box; its height does not depend on
    mid.Z. *)
Theorem tracer_placement (g : Globals) (q : Quantum) :
  particleHandler (setupInitialConditions g q)
  = particleHandler q ++ [p1 g q] /\
  p_radius (p1 g q) = big_particle_radius g /\
  p_velocity (p1 g q) = vec 0 0 0 /\
  p_position (p1 g q)
  = vec ((xMin q + xMax q) / 2) ((yMin q + yMax q) / 2)
        (2 * big_particle_radius g).
Proof. repeat split. Qed.

(** C8.  [setupInitialConditions] adds the side wall first: an
    axisymmetric wall whose axis is the vertical line through
    (mid.X, mid.Y) and whose single surface stands at radius
    (xMax - xMin) / 4; and it adds exactly one insertion boundary, the
    cube from mid - eps to mid + eps in all three axes, with flow rate
    1, which is positive. *)
Theorem side_wall_and_insertion_region (g : Globals) (q : Quantum) :
  wallHandler (setupInitialConditions g q)
  = wallHandler q ++ [cylinder q; top_wall q; bottom_wall] /\
  shape (cylinder q)
  = AxisymmetricIntersectionOfWalls
      (vec (Vec3D.X (midpoint q)) (Vec3D.Y (midpoint q)) 0)
      (vec 0 0 1)
      [(vec 1 0 0, vec ((xMax q - xMin q) / 4) 0 0)] /\
  midpoint q
  = vec ((xMin q + xMax q) / 2) ((yMin q + yMax q) / 2)
        ((zMin q + zMax q) / 2) /\
  boundaryHandler (setupInitialConditions g q)
  = boundaryHandler q ++ [ib g q] /\
  ib_posMin (ib g q)
  = vec (Vec3D.X (midpoint q) - eps g) (Vec3D.Y (midpoint q) - eps g)
        (Vec3D.Z (midpoint q) - eps g) /\
  ib_posMax (ib g q)
  = vec (Vec3D.X (midpoint q) + eps g) (Vec3D.Y (midpoint q) + eps g)
        (Vec3D.Z (midpoint q) + eps g) /\
  volumeFlowRate (ib g q) = 1 /\
  (0 <? volumeFlowRate (ib g q)) = true.
Proof.
  unfold setupInitialConditions, copyAndAddObject.
  cbn [wallHandler boundaryHandler]. rewrite <- !app_assoc.
  repeat split.
Qed.

(** * The program's own run

    [main] steps by 0.005 / 50, the double 0.0001, from time 0. *)

(** C1.  The code breaks the claim: the kick window is tested before
    the cutoff, so the kick whose window opens at 20.0 fires on step
    200001, at t = 20.0001 > stop_kick, writes velocity +1 to the floor
    and advances both statics; the zero forcing only follows one step
    later. *)
Theorem kick_fires_after_stop_kick :
  after 200000
  = Some {| at_time := 19.999999999966729;
            kicks_so_far := 74;
            next_kick := 20;
            floor_velocity := Some (vec 0 0 (-1));
            flow_rate := Some 0;
            last_write :=
              Some (19.750099999967311, KickWrite (vec 0 0 (-1))) |} /\
  after 200001
  = Some {| at_time := 20.000099999966729;
            kicks_so_far := 75;
            next_kick := 20.25;
            floor_velocity := Some (vec 0 0 1);
            flow_rate := Some 0;
            last_write :=
              Some (20.000099999966729, KickWrite (vec 0 0 1)) |} /\
  (stop_kick globals <? 20.000099999966729) = true /\
  after 200002
  = Some {| at_time := 20.000199999966728;
            kicks_so_far := 75;
            next_kick := 20.25;
            floor_velocity := Some (vec 0 0 0);
            flow_rate := Some 0;
            last_write :=
              Some (20.000199999966728, RestWrite (vec 0 0 0)) |}.
Proof.
  split; [vm_compute; reflexivity|].
  split; [vm_compute; reflexivity|].
  split; vm_compute; reflexivity.
Qed.

(** C3.  The scenario's trace: the flow rate becomes 0 at
    t = 0.9999999999999, the first kick writes +1 at t = 1.5001, the
    second -1 at t = 1.7501.  The last part of the claim fails on the
    code: between t = 20 and t = 25 the floor velocity is not held at 0;
    twenty more kicks fire (74 by t = 20, 94 by t = 25), for instance -1
    at t = 20.2501, each undone by the zero forcing one step later. *)
Theorem scenario_trace :
  timeStep initial = 0.0001 /\
  option_map trace (solve globals 17501 initial)
  = Some [(0.99999999999990619, FlowRateWrite 0);
          (1.5000999999998512, KickWrite (vec 0 0 1));
          (1.7500999999998237, KickWrite (vec 0 0 (-1)))] /\
  after 10000
  = Some {| at_time := 0.99999999999990619;
            kicks_so_far := 0;
            next_kick := 1.5;
            floor_velocity := Some (vec 0 0 0);
            flow_rate := Some 0;
            last_write := Some (0.99999999999990619, FlowRateWrite 0) |} /\
  after 202501
  = Some {| at_time := 20.250099999966146;
            kicks_so_far := 76;
            next_kick := 20.5;
            floor_velocity := Some (vec 0 0 (-1));
            flow_rate := Some 0;
            last_write :=
              Some (20.250099999966146, KickWrite (vec 0 0 (-1))) |} /\
  after 250000
  = Some {| at_time := 24.999999999955076;
            kicks_so_far := 94;
            next_kick := 25;
            floor_velocity := Some (vec 0 0 0);
            flow_rate := Some 0;
            last_write :=
              Some (24.999999999955076, RestWrite (vec 0 0 0)) |}.
Proof.
  split; [reflexivity|].
  split; [vm_compute; reflexivity|].
  split; [vm_compute; reflexivity|].
  split; vm_compute; reflexivity.
Qed.

(** * Further properties of the driver *)

Lemma SFltb_trans (a b c : spec_float) :
  SFltb a b = true -> SFltb b c = true -> SFltb a c = true.
Proof.
  unfold SFltb, SFcompare.
  destruct a as [[|]|[|]| |[|] ma ea], b as [[|]|[|]| |[|] mb eb],
    c as [[|]|[|]| |[|] mc ec];
    simpl; intros Hab Hbc; try discriminate; try reflexivity; sf_order.
Qed.

Lemma ltb_trans (a b c : float) :
  (a <? b) = true -> (b <? c) = true -> (a <? c) = true.
Proof. rewrite !ltb_spec. apply SFltb_trans. Qed.

(** ** Safety of the handler accesses *)

Lemma setup_ready (g : Globals) (q : Quantum) :
  handlers_ready (setupInitialConditions g q) = true.
Proof.
  apply handlers_ready_intro; unfold setupInitialConditions, copyAndAddObject;
    cbn [wallHandler boundaryHandler]; intros H;
    apply app_eq_nil in H as [_ H]; discriminate H.
Qed.

(** X1.  After [setupInitialConditions], whatever was in the handlers
    before, every sequence of calls of [actionsAfterTimeStep] is
    defined: each [getLastObject] finds an object. *)
Theorem driver_safe_after_setup
  (g g' : Globals) (q : Quantum) (ts : list float) :
  exists q',
    run g' ts (setupInitialConditions g q) = Some q' /\
    handlers_ready q' = true.
Proof. apply run_total, setup_ready. Qed.

(** ** What a run leaves alone *)

Lemma run_floor_only (g : Globals) (ts : list float) (q q' : Quantum) :
  run g ts q = Some q' ->
  floor_only g (wallHandler q) (wallHandler q').
Proof.
  revert q. induction ts as [|t ts IH]; intros q H.
  - injection H as <-. now left.
  - cbn [run] in H.
    destruct (actionsAfterTimeStep g (set_time t q)) as [q1|] eqn:E;
      [|discriminate].
    apply actions_fired, fired_floor_only in E.
    exact (floor_only_trans _ _ _ _ E (IH q1 H)).
Qed.

Lemma shutoff_only_trans (b1 b2 b3 : list CubeInsertionBoundary) :
  shutoff_only b1 b2 -> shutoff_only b2 b3 -> shutoff_only b1 b3.
Proof.
  intros [->|[h [o [E1 E2]]]] H23; [exact H23|].
  destruct H23 as [->|[h' [o' [E1' E2']]]].
  - right. now exists h, o.
  - right. rewrite E2 in E1'. apply app_inj_tail in E1' as [<- <-].
    exists h, o. split; [exact E1|]. rewrite E2'. reflexivity.
Qed.

Lemma fired_shutoff_only (g : Globals) (q q' : Quantum) :
  fired g q q' -> shutoff_only (boundaryHandler q) (boundaryHandler q').
Proof.
  intros [h Ef Eh|h Ef Ek Eh|h Ef Ek Es Eh|Ef Ek Es];
    cbn [with_boundaries with_walls boundaryHandler]; try (now left).
  apply onLastObject_inv in Eh as [h' [o [E1 E2]]]. right. now exists h', o.
Qed.

Lemma run_shutoff_only (g : Globals) (ts : list float) (q q' : Quantum) :
  run g ts q = Some q' ->
  shutoff_only (boundaryHandler q) (boundaryHandler q').
Proof.
  revert q. induction ts as [|t ts IH]; intros q H.
  - injection H as <-. now left.
  - cbn [run] in H.
    destruct (actionsAfterTimeStep g (set_time t q)) as [q1|] eqn:E;
      [|discriminate].
    apply actions_fired, fired_shutoff_only in E.
    exact (shutoff_only_trans _ _ _ E (IH q1 H)).
Qed.

(** X3.  The wall the driver moves is the bottom wall.  After
    [setupInitialConditions] and any sequence of calls, the wall handler
    is what it was before the setup, then the cylinder and the top wall
    exactly as created (at rest), then the bottom wall with its shape
    kept and a vertical velocity of 0 or plus or minus the amplitude. *)
Theorem only_bottom_wall_moves (g : Globals) (q : Quantum) (ts : list float) :
  exists q' v,
    run g ts (setupInitialConditions g q) = Some q' /\
    wallHandler q'
    = wallHandler q ++ [cylinder q; top_wall q; setVelocity v bottom_wall] /\
    vertical_kick g v /\
    velocity (cylinder q) = vec 0 0 0 /\
    velocity (top_wall q) = vec 0 0 0.
Proof.
  destruct (run_total g ts _ (setup_ready g q)) as [q' [Hrun _]].
  pose proof (run_floor_only _ _ _ _ Hrun) as Hf.
  assert (E : wallHandler (setupInitialConditions g q)
              = (wallHandler q ++ [cylinder q; top_wall q]) ++ [bottom_wall]).
  { unfold setupInitialConditions, copyAndAddObject. cbn [wallHandler].
    now rewrite <- !app_assoc. }
  rewrite E in Hf.
  destruct Hf as [Hw|[h [o [v [E1 [E2 Hv]]]]]].
  - exists q', (vec 0 0 0). split; [exact Hrun|].
    rewrite Hw, <- app_assoc. split; [reflexivity|].
    split; [apply rest_velocity_vertical|now split].
  - apply app_inj_tail in E1 as [<- <-].
    exists q', v. split; [exact Hrun|].
    rewrite E2, <- app_assoc. split; [reflexivity|].
    split; [exact Hv|now split].
Qed.

(** X4.  The insertion boundary keeps its cube and its particle template.
    After [setupInitialConditions] and any sequence of calls, whatever
    the clock does, the boundary handler is what it was before the
    setup followed by the boundary as created, with flow rate 1 or 0;
    the template is the small particle at rest. *)
Theorem insertion_boundary_kept (g : Globals) (q : Quantum) (ts : list float) :
  exists q' r,
    run g ts (setupInitialConditions g q) = Some q' /\
    boundaryHandler q'
    = boundaryHandler q ++ [setVolumeFlowRate r (ib g q)] /\
    (r = 1 \/ r = 0) /\
    ib_particle (setVolumeFlowRate r (ib g q)) = p0 g /\
    p_radius (p0 g) = small_particle_radius g /\
    p_velocity (p0 g) = vec 0 0 0.
Proof.
  destruct (run_total g ts _ (setup_ready g q)) as [q' [Hrun _]].
  pose proof (run_shutoff_only _ _ _ _ Hrun) as Hf.
  change (boundaryHandler (setupInitialConditions g q))
    with (boundaryHandler q ++ [ib g q]) in Hf.
  destruct Hf as [Hw|[h [o [E1 E2]]]].
  - exists q', 1. split; [exact Hrun|]. rewrite Hw.
    split; [reflexivity|]. split; [now left|]. now repeat split.
  - apply app_inj_tail in E1 as [<- <-].
    exists q', 0. split; [exact Hrun|]. rewrite E2.
    split; [reflexivity|]. split; [now right|]. now repeat split.
Qed.

(** X5.  The flow is never turned back on: once the last boundary has flow
    rate 0 it has flow rate 0 after any sequence of calls, also on a
    clock that jumps or goes back. *)
Theorem flow_stays_off (g : Globals) (ts : list float) (q : Quantum) :
  handlers_ready q = true ->
  option_map volumeFlowRate (lastObject (boundaryHandler q)) = Some 0 ->
  exists q',
    run g ts q = Some q' /\
    option_map volumeFlowRate (lastObject (boundaryHandler q')) = Some 0.
Proof.
  intros Hr H0. destruct (run_total g ts q Hr) as [q' [Hrun _]].
  exists q'. split; [exact Hrun|].
  destruct (run_shutoff_only _ _ _ _ Hrun) as [->|[h [o [_ ->]]]];
    [exact H0|].
  now rewrite lastObject_last.
Qed.

Lemma final_time_cons (t0 t : float) (ts : list float) :
  final_time t0 (t :: ts) = final_time t ts.
Proof.
  unfold final_time. revert t. induction ts as [|t' ts IH]; intros t.
  - reflexivity.
  - change (last (t :: t' :: ts) t0) with (last (t' :: ts) t0).
    change (last (t' :: ts) t) with
      (match ts with [] => t' | _ :: _ => last ts t end).
    rewrite (IH t'). destruct ts as [|t'' ts]; [reflexivity|].
    change (last (t'' :: ts) t') with
      (match ts with [] => t'' | _ :: _ => last ts t' end).
    clear IH. revert t t' t''. induction ts as [|u ts IH]; intros t t' t'';
      [reflexivity|].
    change (last (u :: ts) t) with
      (match ts with [] => u | _ :: _ => last ts t end).
    change (last (u :: ts) t') with
      (match ts with [] => u | _ :: _ => last ts t' end).
    destruct ts as [|w ts]; [reflexivity|]. apply (IH t t' u).
Qed.

Lemma fired_frame (g : Globals) (q q' : Quantum) :
  fired g q q' ->
  particleHandler q' = particleHandler q /\
  (xMin q', xMax q', yMin q', yMax q', zMin q', zMax q')
  = (xMin q, xMax q, yMin q, yMax q, zMin q, zMax q).
Proof. intros []; now split. Qed.

(** X6.  The driver never touches the particles, the bounding box or the time
    step, and it leaves the clock where the engine put it. *)
Theorem driver_frame (g : Globals) (ts : list float) (q : Quantum) :
  handlers_ready q = true ->
  exists q',
    run g ts q = Some q' /\
    particleHandler q' = particleHandler q /\
    (xMin q', xMax q', yMin q', yMax q', zMin q', zMax q')
    = (xMin q, xMax q, yMin q, yMax q, zMin q, zMax q) /\
    timeStep q' = timeStep q /\
    time q' = final_time (time q) ts.
Proof.
  revert q. induction ts as [|t ts IH]; intros q Hr.
  - exists q. now repeat split.
  - cbn [run].
    destruct (actions_total g (set_time t q) Hr) as [q1 [E Hr1]].
    rewrite E. apply actions_fired in E.
    destruct (fired_frame _ _ _ E) as [Ep Eb], (fired_clock _ _ _ E) as [Et Ed].
    cbn [set_time particleHandler xMin xMax yMin yMax zMin zMax
         time timeStep] in Ep, Eb, Et, Ed.
    destruct (IH q1 Hr1) as [q' [Hrun [Hp [Hb [Hd Ht]]]]].
    exists q'. split; [exact Hrun|].
    rewrite Hp, Hb, Hd, Ht, Ep, Eb, Ed, Et.
    repeat split. now rewrite final_time_cons.
Qed.

Lemma flow_stays_off_witness :
  exists q',
    run globals [1.2; 0.5; 0.99995; 1.6]
      (with_boundaries (set_time 0.99995 initial)
         [setVolumeFlowRate 0 (ib globals problem)] (FlowRateWrite 0))
    = Some q' /\
    option_map volumeFlowRate (lastObject (boundaryHandler q')) = Some 0.
Proof.
  apply (flow_stays_off globals [1.2; 0.5; 0.99995; 1.6]); reflexivity.
Defined.

Lemma driver_frame_witness :
  exists q',
    run globals [0.99995; 1.6; 1.8; 20.5] initial = Some q' /\
    particleHandler q' = [p1 globals problem] /\
    (xMin q', xMax q', yMin q', yMax q', zMin q', zMax q')
    = (0, 1, 0, 1, 0, 3) /\
    timeStep q' = 0.0001 /\
    time q' = 20.5.
Proof.
  apply (driver_frame globals [0.99995; 1.6; 1.8; 20.5] initial).
  reflexivity.
Defined.

(** ** The schedule of kicks *)

Lemma kick_times_app (l1 l2 : list (float * Write)) :
  kick_times (l1 ++ l2) = kick_times l1 ++ kick_times l2.
Proof.
  induction l1 as [|[t [r|v|v]] l1 IH]; cbn [app kick_times];
    rewrite ?IH; reflexivity.
Qed.

Lemma fired_kick_time (g : Globals) (q q' : Quantum) :
  fired g q q' ->
  (kick_interval_counter q' = kick_interval_counter q /\
   kick_times (trace q') = kick_times (trace q)) \/
  (kick_interval_counter q' = kick_interval_counter q + pulse_interval g /\
   kick_times (trace q') = kick_times (trace q) ++ [time q] /\
   (kick_interval_counter q <? time q) = true /\
   (time q <? kick_interval_counter q + pulse_interval g) = true).
Proof.
  unfold trace.
  intros [h Ef Eh|h Ef Ek Eh|h Ef Ek Es Eh|Ef Ek Es];
    cbn [with_boundaries with_walls writes kick_interval_counter rev];
    rewrite ?kick_times_app; cbn [kick_times]; rewrite ?app_nil_r; auto.
  right. unfold kick_window in Ek. apply andb_prop in Ek as [E1 E2].
  now repeat split.
Qed.

Lemma run_kick_times (g : Globals) (ts : list float) (q q' : Quantum) :
  run g ts q = Some q' ->
  exists new : list float,
    kick_times (trace q') = kick_times (trace q) ++ new /\
    kick_interval_counter q'
    = threshold_after g (kick_interval_counter q) (length new) /\
    forall (n : nat) (t : float),
      nth_error new n = Some t ->
      (threshold_after g (kick_interval_counter q) n <? t) = true /\
      (t <? threshold_after g (kick_interval_counter q) (S n)) = true.
Proof.
  revert q. induction ts as [|t0 ts IH]; intros q H.
  - injection H as <-. exists []. rewrite app_nil_r.
    repeat split; destruct n; discriminate.
  - cbn [run] in H.
    destruct (actionsAfterTimeStep g (set_time t0 q)) as [q1|] eqn:E;
      [|discriminate].
    apply actions_fired, fired_kick_time in E.
    change (kick_interval_counter (set_time t0 q))
      with (kick_interval_counter q) in E.
    change (trace (set_time t0 q)) with (trace q) in E.
    change (time (set_time t0 q)) with t0 in E.
    destruct (IH q1 H) as [new [Hk [Hc Hn]]].
    destruct E as [[Ec Ek]|[Ec [Ek [E1 E2]]]].
    + exists new. rewrite Hk, Hc, Ek, Ec. split; [reflexivity|].
      split; [reflexivity|]. intros n t Hnt. rewrite <- Ec. now apply Hn.
    + exists (t0 :: new). rewrite Hk, Hc, Ek, Ec, <- app_assoc.
      split; [reflexivity|]. unfold threshold_after in *. split.
      * cbn [length]. now rewrite Nat.iter_succ_r.
      * intros [|n] t Hnt.
        -- injection Hnt as <-. now split.
        -- cbn [nth_error] in Hnt. destruct (Hn n t Hnt) as [H1 H2].
           rewrite Ec in H1, H2.
           rewrite (Nat.iter_succ_r (S n)), (Nat.iter_succ_r n).
           split; [exact H1|exact H2].
Qed.

(** X7.  Each kick fires strictly inside its own window of the drifting
    schedule, whatever the clock does: counting from 0 in a run started
    with an empty log, the n-th kick's time lies strictly between the
    start threshold plus n pulse intervals and that plus one more.  So
    no kick is early, no window gets two kicks, and kick times strictly
    increase. *)
Theorem kick_inside_its_window (g : Globals) (ts : list float) (q : Quantum) :
  handlers_ready q = true ->
  writes q = [] ->
  exists q',
    run g ts q = Some q' /\
    forall (n : nat) (t : float),
      nth_error (kick_times (trace q')) n = Some t ->
      (threshold_after g (kick_interval_counter q) n <? t) = true /\
      (t <? threshold_after g (kick_interval_counter q) n + pulse_interval g)
      = true /\
      forall t' : float,
        nth_error (kick_times (trace q')) (S n) = Some t' ->
        (t <? t') = true.
Proof.
  intros Hr Hw. destruct (run_total g ts q Hr) as [q' [Hrun _]].
  exists q'. split; [exact Hrun|].
  destruct (run_kick_times g ts q q' Hrun) as [new [Hk [_ Hn]]].
  unfold trace in Hk at 2. rewrite Hw in Hk. cbn [rev kick_times app] in Hk.
  rewrite Hk. intros n t Hnt. destruct (Hn n t Hnt) as [H1 H2].
  split; [exact H1|]. split; [exact H2|].
  intros t' Hnt'. destruct (Hn (S n) t' Hnt') as [H3 _].
  exact (ltb_trans _ _ _ H2 H3).
Qed.

Lemma kick_inside_its_window_witness :
  exists q',
    run globals [1.5; 1.6; 1.7; 1.8; 1.2; 2.1; 20.5] initial = Some q' /\
    forall (n : nat) (t : float),
      nth_error (kick_times (trace q')) n = Some t ->
      (threshold_after globals 1.5 n <? t) = true /\
      (t <? threshold_after globals 1.5 n + pulse_interval globals) = true /\
      forall t' : float,
        nth_error (kick_times (trace q')) (S n) = Some t' ->
        (t <? t') = true.
Proof.
  apply (kick_inside_its_window globals
           [1.5; 1.6; 1.7; 1.8; 1.2; 2.1; 20.5] initial); reflexivity.
Defined.

Lemma fired_waiting (g : Globals) (q q' : Quantum) :
  fired g q q' ->
  (kick_interval_counter q <? time q) = false ->
  (stop_kick g <? time q) = false ->
  wallHandler q' = wallHandler q /\
  kick_count q' = kick_count q /\
  kick_interval_counter q' = kick_interval_counter q /\
  last_wall_write (writes q') = last_wall_write (writes q).
Proof.
  intros [h Ef Eh|h Ef Ek Eh|h Ef Ek Es Eh|Ef Ek Es] H1 H2;
    try (now repeat split).
  - unfold kick_window in Ek. rewrite H1 in Ek. discriminate.
  - unfold past_stop_kick in Es. congruence.
Qed.

(** X8.  While the clock has passed neither the kick threshold nor
    [stop_kick], the floor is left alone: over calls at times t with
    neither kick_interval_counter < t nor stop_kick < t, in any order,
    no wall is written and both statics keep their values. *)
Theorem floor_untouched_while_waiting
  (g : Globals) (ts : list float) (q : Quantum) :
  handlers_ready q = true ->
  Forall (fun t => (kick_interval_counter q <? t) = false /\
                   (stop_kick g <? t) = false) ts ->
  exists q',
    run g ts q = Some q' /\
    wallHandler q' = wallHandler q /\
    kick_count q' = kick_count q /\
    kick_interval_counter q' = kick_interval_counter q /\
    last_wall_write (writes q') = last_wall_write (writes q).
Proof.
  revert q. induction ts as [|t ts IH]; intros q Hr Hall.
  - exists q. now repeat split.
  - cbn [run]. inversion Hall as [|? ? [H1 H2] Hts]; subst.
    destruct (actions_total g (set_time t q) Hr) as [q1 [E Hr1]].
    rewrite E. apply actions_fired in E.
    destruct (fired_waiting _ _ _ E H1 H2) as [Ew [Ec [Ek El]]].
    cbn [set_time wallHandler kick_count kick_interval_counter writes]
      in Ew, Ec, Ek, El.
    destruct (IH q1 Hr1) as [q' [Hrun [Hw [Hc [Hk Hl]]]]].
    { now rewrite Ek. }
    exists q'. split; [exact Hrun|].
    rewrite Hw, Hc, Hk, Hl, Ew, Ec, Ek, El. now repeat split.
Qed.

Lemma floor_untouched_while_waiting_witness :
  exists q',
    run globals [0.5; 0.99995; 1.2; 1.5; 0.3] initial = Some q' /\
    wallHandler q' = wallHandler initial /\
    kick_count q' = 0%Z /\
    kick_interval_counter q' = 1.5 /\
    last_wall_write (writes q') = None.
Proof.
  apply (floor_untouched_while_waiting globals
           [0.5; 0.99995; 1.2; 1.5; 0.3] initial); [reflexivity|].
  repeat (constructor; [split; reflexivity|]). constructor.
Defined.

(** ** The log and the objects agree *)

(** X9.  At every moment the floor moves with the velocity of the most
    recent kick or zero forcing, and the insertion boundary flows at
    the most recently written rate; before any such write they are as
    the run found them.  The driver changes them in no other way. *)
Theorem objects_follow_last_write
  (g : Globals) (ts : list float) (q : Quantum) :
  handlers_ready q = true ->
  writes q = [] ->
  exists q',
    run g ts q = Some q' /\
    option_map velocity (lastObject (wallHandler q'))
    = match last_wall_write (writes q') with
      | Some v => Some v
      | None => option_map velocity (lastObject (wallHandler q))
      end /\
    option_map volumeFlowRate (lastObject (boundaryHandler q'))
    = match last_flow_write (writes q') with
      | Some r => Some r
      | None => option_map volumeFlowRate (lastObject (boundaryHandler q))
      end.
Proof.
  intros Hr Hw. destruct (run_total g ts q Hr) as [q' [Hrun _]].
  exists q'. split; [exact Hrun|].
  apply (run_log_coherent g _ _ ts q q' Hrun).
  unfold log_coherent. rewrite Hw. now split.
Qed.

Lemma objects_follow_last_write_witness :
  exists q',
    run globals [0.99995; 1.6; 1.8; 20.5] initial = Some q' /\
    option_map velocity (lastObject (wallHandler q'))
    = match last_wall_write (writes q') with
      | Some v => Some v
      | None => option_map velocity (lastObject (wallHandler initial))
      end /\
    option_map volumeFlowRate (lastObject (boundaryHandler q'))
    = match last_flow_write (writes q') with
      | Some r => Some r
      | None =>
          option_map volumeFlowRate (lastObject (boundaryHandler initial))
      end.
Proof.
  apply (objects_follow_last_write globals [0.99995; 1.6; 1.8; 20.5] initial);
    reflexivity.
Defined.

(** ** The zero forcing *)

(** X10.  The zero forcing is idempotent: when a call takes the last branch
    (past [stop_kick], outside the flow edge and the kick window), a
    second call at the same time takes it again and leaves the walls,
    the boundaries and both statics exactly as the first call left
    them, the floor at rest. *)
Theorem zero_forcing_idempotent (g : Globals) (q q1 : Quantum) :
  flow_edge g q = false ->
  kick_window g q = false ->
  past_stop_kick g q = true ->
  actionsAfterTimeStep g q = Some q1 ->
  option_map velocity (lastObject (wallHandler q1)) = Some (vec 0 0 0) /\
  exists q2,
    actionsAfterTimeStep g q1 = Some q2 /\
    wallHandler q2 = wallHandler q1 /\
    boundaryHandler q2 = boundaryHandler q1 /\
    kick_count q2 = kick_count q1 /\
    kick_interval_counter q2 = kick_interval_counter q1 /\
    writes q2 = (time q, RestWrite (vec 0 0 0)) :: writes q1.
Proof.
  intros Ef Ek Es H. apply actions_fired in H.
  destruct H as [h Ef' Eh|h Ef' Ek' Eh|h Ef' Ek' Es' Eh|Ef' Ek' Es'];
    try congruence.
  apply onLastObject_inv in Eh as [h' [o [E1 ->]]].
  cbn [with_walls wallHandler]. rewrite lastObject_last.
  split; [reflexivity|].
  eexists. split.
  - apply fired_actions.
    match goal with
    | |- fired g ?q1 _ =>
        apply (fired_rest g q1 (h' ++ [setVelocity (vec 0 0 0) o]))
    end.
    + exact Ef.
    + exact Ek.
    + exact Es.
    + cbn [with_walls wallHandler]. rewrite onLastObject_last. reflexivity.
  - cbn [with_walls wallHandler boundaryHandler kick_count
         kick_interval_counter writes time]. now repeat split.
Qed.

Lemma zero_forcing_idempotent_witness :
  exists q1,
    actionsAfterTimeStep globals (set_time 20.5 initial) = Some q1 /\
    option_map velocity (lastObject (wallHandler q1)) = Some (vec 0 0 0) /\
    exists q2,
      actionsAfterTimeStep globals q1 = Some q2 /\
      wallHandler q2 = wallHandler q1 /\
      boundaryHandler q2 = boundaryHandler q1 /\
      kick_count q2 = kick_count q1 /\
      kick_interval_counter q2 = kick_interval_counter q1 /\
      writes q2 = (20.5, RestWrite (vec 0 0 0)) :: writes q1.
Proof.
  eexists. split; [vm_compute; reflexivity|].
  apply (zero_forcing_idempotent globals (set_time 20.5 initial));
    reflexivity.
Defined.

(** ** A missed flow edge *)

(** X11.  The flow shutoff cannot be made up: once the clock shows a time
    that is not below [stop_flow], no call of a clock that does not go
    back writes the flow rate, so an inflow still on at that moment
    stays on for the rest of the run. *)
Theorem missed_flow_edge_is_permanent
  (g : Globals) (ts : list float) (q : Quantum) :
  handlers_ready q = true ->
  (time q <? stop_flow g) = false ->
  advancing (time q) ts = true ->
  exists q',
    run g ts q = Some q' /\
    boundaryHandler q' = boundaryHandler q /\
    last_flow_write (writes q') = last_flow_write (writes q).
Proof.
  revert q. induction ts as [|t ts IH]; intros q Hr Hlate Ha.
  - exists q. now repeat split.
  - cbn [run advancing] in *. apply andb_prop in Ha as [Hle Ha].
    destruct (actions_total g (set_time t q) Hr) as [q1 [E Hr1]].
    rewrite E. pose proof (actions_fired _ _ _ E) as F.
    destruct (fired_clock _ _ _ F) as [Ht _]. cbn [set_time time] in Ht.
    pose proof (not_ltb_later _ t _ Hlate Hle) as Hlate'.
    assert (Hb : boundaryHandler q1 = boundaryHandler q /\
                 last_flow_write (writes q1) = last_flow_write (writes q)).
    { destruct F as [h Ef Eh|h Ef Ek Eh|h Ef Ek Es Eh|Ef Ek Es];
        try (now split).
      unfold flow_edge in Ef. cbn [set_time time] in Ef.
      rewrite Hlate' in Ef. discriminate. }
    destruct Hb as [Eb El].
    destruct (IH q1 Hr1) as [q' [Hrun [Hb Hl]]].
    + now rewrite Ht.
    + now rewrite Ht.
    + exists q'. split; [exact Hrun|]. rewrite Hb, Hl. now split.
Qed.

Lemma missed_flow_edge_is_permanent_witness :
  exists q',
    run globals [1.25; 1.5; 1.75; 25] (set_time 1 initial_quarter_step)
    = Some q' /\
    boundaryHandler q' = boundaryHandler initial /\
    last_flow_write (writes q') = None.
Proof.
  apply (missed_flow_edge_is_permanent globals [1.25; 1.5; 1.75; 25]
           (set_time 1 initial_quarter_step)); reflexivity.
Defined.
